(** * Severity labelling, mesh discovery and the train / evaluate orchestrators

    A shallow embedding of [ml/train_severity_model.py] and
    [ml/evaluate_model.py].

    - File names are [string]s of 8-bit characters; on that range the
      regular-expression class [\d] is exactly ['0'..'9'].
    - A vehicle identifier is one path component: [Path("data_2") / vehicle_id]
      is the two-part path [["data_2"; vehicle_id]].
    - The collaborators imported from the [Unsupervised] package, numpy,
      scikit-learn and joblib are fields of a [Collaborators] record: functions
      of their arguments that either raise or return, and that do not write to
      the file system.
    - [mkdir] and the final write fail only when a path component is of the
      wrong kind (a file where a directory is needed, or the reverse); other
      failures of the operating system are outside the model. *)

From Stdlib Require Import Ascii String.
From stdpp Require Import base option list sorting gmap strings.

Local Open Scope string_scope.

(** ** Characters *)

Definition is_digit (c : ascii) : bool :=
  ((48 <=? N_of_ascii c) && (N_of_ascii c <=? 57))%N.

Definition newline : ascii := ascii_of_N 10.

Fixpoint chars (s : string) : list ascii :=
  match s with
  | EmptyString => []
  | String c s' => c :: chars s'
  end.

(** ** [re]: the fragment used by the discovery pattern

    A pattern is a sequence of pieces; a piece is one atom, or a captured
    greedy repetition [(a+)].  [re_match] is the backtracking matcher of
    Python's [re]: the repetition first tries to take one more character and
    only then hands over to the rest of the pattern. *)

Inductive atom :=
| Lit (c : ascii)
| Digit          (* \d *)
| Dot.           (* .  : any character except a newline *)

Inductive piece :=
| One (a : atom)
| PlusGroup (a : atom).   (* (a+), greedy, captured as group 1 *)

Definition atom_ok (a : atom) (c : ascii) : bool :=
  match a with
  | Lit d => Ascii.eqb d c
  | Digit => is_digit c
  | Dot => negb (Ascii.eqb c newline)
  end.

Fixpoint plus_loop (a : atom) (k : string -> string -> option string)
    (acc : string) (s : string) : option string :=
  match s with
  | EmptyString => None
  | String c s' =>
      if atom_ok a c then
        match plus_loop a k (acc ++ String c EmptyString) s' with
        | Some g => Some g
        | None => k (acc ++ String c EmptyString) s'
        end
      else None
  end.

(** [re_match re s g]: match [re] at the start of [s]; [g] is the text
    captured so far; the result is group 1 of the match. *)
Fixpoint re_match (re : list piece) (s : string) (g : string) : option string :=
  match re with
  | [] => Some g
  | One a :: re' =>
      match s with
      | String c s' => if atom_ok a c then re_match re' s' g else None
      | EmptyString => None
      end
  | PlusGroup a :: re' =>
      plus_loop a (fun g' s' => re_match re' s' g') EmptyString s
  end.

(** [re.search]: the leftmost position where the pattern matches. *)
Fixpoint re_search (re : list piece) (s : string) : option string :=
  match re_match re s EmptyString with
  | Some g => Some g
  | None =>
      match s with
      | EmptyString => None
      | String _ s' => re_search re s'
      end
  end.

Definition lits (s : string) : list piece := map (fun c => One (Lit c)) (chars s).

(** r"first_mesh_(\d+)_NODE.csv" *)
Definition node_regex : list piece :=
  (lits "first_mesh_" ++ [PlusGroup Digit] ++ lits "_NODE" ++ [One Dot] ++ lits "csv")%list.

(** A non-empty run of decimal digits. *)
Definition numeric_token (idx : string) : Prop :=
  idx <> EmptyString /\ forallb is_digit (chars idx) = true.

(** ** [glob]: shell patterns over one path component *)

Inductive gpiece :=
| GLit (c : ascii)
| GStar.

Fixpoint star_loop (k : string -> bool) (s : string) : bool :=
  k s || match s with
         | EmptyString => false
         | String _ s' => star_loop k s'
         end.

Fixpoint glob_match (p : list gpiece) (s : string) : bool :=
  match p with
  | [] => match s with EmptyString => true | _ => false end
  | GLit c :: p' =>
      match s with
      | String d s' => Ascii.eqb c d && glob_match p' s'
      | EmptyString => false
      end
  | GStar :: p' => star_loop (glob_match p') s
  end.

Definition glits (s : string) : list gpiece := map GLit (chars s).

(** "first_mesh_*_NODE.csv" *)
Definition node_glob : list gpiece :=
  (glits "first_mesh_" ++ [GStar] ++ glits "_NODE.csv")%list.

(** ** Paths *)

Definition Path := list string.

Definition path_join (p : Path) (name : string) : Path := (p ++ [name])%list.
Infix "//" := path_join (at level 40, left associativity).

Definition path_name (p : Path) : string := List.last p EmptyString.

(** Paths compare part by part, parts compare as Python [str] values:
    code point by code point ([String.compare]). *)
Fixpoint path_compare (p q : Path) : comparison :=
  match p, q with
  | [], [] => Eq
  | [], _ :: _ => Lt
  | _ :: _, [] => Gt
  | a :: p', b :: q' =>
      match String.compare a b with
      | Eq => path_compare p' q'
      | c => c
      end
  end.

(** Tuples compare by their first differing component. *)
Definition pair_compare (a b : Path * Path) : comparison :=
  match path_compare a.1 b.1 with
  | Eq => path_compare a.2 b.2
  | c => c
  end.

Definition pair_lt (a b : Path * Path) : bool :=
  match pair_compare a b with
  | Lt => true
  | _ => false
  end.

(** The only question [sorted] asks: [a] stays before [b] unless [b < a]. *)
Definition pair_le (a b : Path * Path) : Prop := Is_true (negb (pair_lt b a)).

#[global] Instance pair_le_dec (a b : Path * Path) : Decision (pair_le a b) :=
  Is_true_dec (negb (pair_lt b a)).

Definition sorted (l : list (Path * Path)) : list (Path * Path) :=
  merge_sort pair_le l.

(** ** The file system

    Every existing path with what it is, in the order in which the operating
    system enumerates it.  Only that order is unspecified in Python's [glob];
    this is why the list is not a finite map. *)

Inductive Node (B : Type) :=
| Dir
| File (content : B).
Arguments Dir {B}.
Arguments File {B} content.

Definition FS (B : Type) := list (Path * Node B).

Section FileSystem.
Context {B : Type}.
Implicit Types (fs : FS B) (p q : Path).

Fixpoint fs_lookup fs p : option (Node B) :=
  match fs with
  | [] => None
  | (q, n) :: fs' => if decide (q = p) then Some n else fs_lookup fs' p
  end.

(** [Path.exists] *)
Definition path_exists fs p : bool :=
  match fs_lookup fs p with Some _ => true | None => false end.

(** [child_of p q = Some n] when [q] is [p / n]. *)
Fixpoint child_of p q : option string :=
  match p, q with
  | [], [n] => Some n
  | a :: p', b :: q' => if decide (a = b) then child_of p' q' else None
  | _, _ => None
  end.

Definition glob_hit (pat : list gpiece) p q : bool :=
  match child_of p q with
  | Some n => glob_match pat n
  | None => false
  end.

(** [Path.glob] with a pattern of one component: the matching children of
    [p], in enumeration order. *)
Definition path_glob fs p (pat : list gpiece) : list Path :=
  filter (fun q => glob_hit pat p q) fs.*1.

(** The non-empty prefixes of a path, shortest first. *)
Fixpoint prefixes p : list Path :=
  match p with
  | [] => []
  | a :: p' => [a] :: map (cons a) (prefixes p')
  end.

Fixpoint mkdir_each fs (ps : list Path) : option (FS B) :=
  match ps with
  | [] => Some fs
  | q :: ps' =>
      match fs_lookup fs q with
      | Some Dir => mkdir_each fs ps'
      | Some (File _) => None
      | None => mkdir_each (fs ++ [(q, Dir)])%list ps'
      end
  end.

(** [Path.mkdir(parents=True, exist_ok=True)]; [None] when a component
    exists and is not a directory. *)
Definition mkdir_parents_exist_ok fs p : option (FS B) :=
  mkdir_each fs (prefixes p).

Definition overwrite p (c : B) (e : Path * Node B) : Path * Node B :=
  if decide (e.1 = p) then (p, File c) else e.

(** Opening [p] for writing and storing [c]; [None] when [p] is a
    directory or its parent is not one. *)
Definition write_file fs p (c : B) : option (FS B) :=
  match fs_lookup fs p with
  | Some Dir => None
  | Some (File _) => Some (map (overwrite p c) fs)
  | None =>
      match fs_lookup fs (removelast p) with
      | Some Dir => Some (fs ++ [(p, File c)])%list
      | _ => None
      end
  end.

Definition read_file fs p : option B :=
  match fs_lookup fs p with
  | Some (File c) => Some c
  | _ => None
  end.
End FileSystem.

(** ** Discovery: [find_first_meshes], train_severity_model.py lines 24-41 *)

Section Discovery.
Context {B : Type}.

(** The body of the [for node_csv in vehicle_root.glob(...)] loop. *)
Fixpoint find_loop (fs0 : FS B) (vehicle_root : Path)
    (nodes : list Path) (pairs : list (Path * Path)) : list (Path * Path) :=
  match nodes with
  | [] => pairs
  | node_csv :: rest =>
      match re_search node_regex (path_name node_csv) with
      | None => find_loop fs0 vehicle_root rest pairs
      | Some idx =>
          let elem_csv := vehicle_root // ("first_mesh_" ++ idx ++ "_ELEMENT.csv") in
          if path_exists fs0 elem_csv
          then find_loop fs0 vehicle_root rest (pairs ++ [(node_csv, elem_csv)])%list
          else find_loop fs0 vehicle_root rest pairs
      end
  end.

Definition find_first_meshes (fs0 : FS B) (vehicle_root : Path)
    : list (Path * Path) :=
  sorted (find_loop fs0 vehicle_root (path_glob fs0 vehicle_root node_glob) []).

(** What one turn of the loop appends, if anything. *)
Definition found_pair (fs0 : FS B) (vehicle_root node_csv : Path)
    : option (Path * Path) :=
  match re_search node_regex (path_name node_csv) with
  | None => None
  | Some idx =>
      let elem_csv := vehicle_root // ("first_mesh_" ++ idx ++ "_ELEMENT.csv") in
      if path_exists fs0 elem_csv then Some (node_csv, elem_csv) else None
  end.

End Discovery.

(** ** The collaborators *)

(** A mesh object: what the loader built, and the [element_neighbors]
    attribute that the orchestrators assign. *)
Record Mesh (D N : Type) := mkMesh {
  mesh_data : D;
  element_neighbors : option N
}.
Arguments mkMesh {D N}.
Arguments mesh_data {D N}.
Arguments element_neighbors {D N}.

(** RandomForestClassifier(n_estimators, max_depth, n_jobs, random_state) *)
Record RFParams := mkRF {
  n_estimators : Z;
  max_depth : Z;
  n_jobs : Z;
  random_state : Z
}.

Record Collaborators := {
  ElementID : Type;
  ElementID_eq_dec :: EqDecision ElementID;
  ElementID_countable :: Countable ElementID;
  FileContent : Type;
  MeshData : Type;
  NeighborMap : Type;
  MetricsTable : Type;
  DistanceTable : Type;
  FeatureVector : Type;
  Array : Type;
  Model : Type;
  Predictions : Type;
  Score : Type;
  Report : Type;
  ExternalError : Type;
  (** iteration order of [mesh.elements] *)
  elements : MeshData -> list ElementID;
  load_mesh : FS FileContent -> Path -> Path ->
              ExternalError + Mesh MeshData NeighborMap;
  build_element_neighbors : Mesh MeshData NeighborMap -> ExternalError + NeighborMap;
  compute_intrinsic_metrics : Mesh MeshData NeighborMap -> ExternalError + MetricsTable;
  detect_intrinsic_errors :
    Mesh MeshData NeighborMap -> MetricsTable -> option NeighborMap ->
    ExternalError + gmap ElementID (list string);
  compute_mesh_to_cad_distances :
    Mesh MeshData NeighborMap -> Mesh MeshData NeighborMap ->
    ExternalError + DistanceTable;
  detect_cad_related_errors :
    Mesh MeshData NeighborMap -> DistanceTable ->
    ExternalError + gmap ElementID (list string);
  build_feature_vector :
    ElementID -> Mesh MeshData NeighborMap -> MetricsTable ->
    gmap ElementID (list string) -> gmap ElementID (list string) ->
    ExternalError + FeatureVector;
  (** np.asarray(_, dtype=np.float32) *)
  asarray_float32 : list FeatureVector -> ExternalError + Array;
  (** RandomForestClassifier(...).fit(X, y) *)
  fit : RFParams -> Array -> list Z -> ExternalError + Model;
  predict : Model -> Array -> ExternalError + Predictions;
  (** the bytes joblib writes for a model, and reading them back *)
  joblib_dump : Model -> FileContent;
  joblib_load : FileContent -> ExternalError + Model;
  accuracy_score : list Z -> Predictions -> ExternalError + Score;
  classification_report : list Z -> Predictions -> ExternalError + Report
}.

(** ** Exceptions, observable effects and the run monad *)

Section Orchestrators.
Context (K : Collaborators).

Abbreviation EID := (ElementID K).
Abbreviation MeshT := (Mesh (MeshData K) (NeighborMap K)).
Abbreviation TagDict := (gmap (ElementID K) (list string)).

Inductive Exn :=
| VehicleFolderNotFound (vehicle_root : Path)  (* FileNotFoundError *)
| NoFirstMeshes                                (* RuntimeError *)
| ModelNotFound (model_path : Path)            (* FileNotFoundError *)
| OSError (p : Path)                           (* mkdir / open on p *)
| Raised (e : ExternalError K).                (* from a collaborator *)

(** Calls that leave the orchestrator, in the order they are made. *)
Inductive Call :=
| Call_load_mesh (node_csv elem_csv : Path)
| Call_build_element_neighbors
| Call_compute_intrinsic_metrics
| Call_detect_intrinsic_errors
| Call_compute_mesh_to_cad_distances
| Call_detect_cad_related_errors
| Call_build_feature_vector (eid : EID)
| Call_asarray
| Call_fit (params : RFParams)
| Call_mkdir (p : Path)
| Call_joblib_dump (p : Path)
| Call_joblib_load (p : Path)
| Call_predict
| Call_accuracy_score
| Call_classification_report.

(** Lines written by [print]. *)
Inductive Msg :=
| Info_training_vehicle (vehicle_id : string)
| Info_cad_loaded
| Info_found (n : nat)
| Info_processing (name : string)
| Info_training_samples (X : Array K)          (* shows X.shape *)
| Ok_model_saved (model_path : Path)
| Info_evaluating (vehicle_id mesh_idx : string)
| Out_accuracy (a : Score K)
| Out_report (r : Report K).

Record State := mkState {
  fs : FS (FileContent K);
  calls : list Call;
  stdout : list Msg
}.

Definition M (A : Type) : Type := State -> (Exn + A) * State.

Definition ret {A} (a : A) : M A := fun st => (inr a, st).

Definition bind {A C} (m : M A) (k : A -> M C) : M C :=
  fun st =>
    match m st with
    | (inl e, st') => (inl e, st')
    | (inr a, st') => k a st'
    end.

Definition raise {A} (e : Exn) : M A := fun st => (inl e, st).

Definition get_fs : M (FS (FileContent K)) := fun st => (inr (fs st), st).

Definition put_fs (fs' : FS (FileContent K)) : M unit :=
  fun st => (inr tt, mkState fs' (calls st) (stdout st)).

Definition print (m : Msg) : M unit :=
  fun st => (inr tt, mkState (fs st) (calls st) (stdout st ++ [m])%list).

Definition record (c : Call) : M unit :=
  fun st => (inr tt, mkState (fs st) (calls st ++ [c])%list (stdout st)).

Definition lift {A} (r : ExternalError K + A) : M A :=
  match r with
  | inl e => raise (Raised e)
  | inr a => ret a
  end.

(** One collaborator call: it is recorded, then it returns or raises. *)
Definition call {A} (c : Call) (r : ExternalError K + A) : M A :=
  bind (record c) (fun _ => lift r).

Notation "x <~ m ;; k" := (bind m (fun x => k))
  (at level 100, m at next level, right associativity).
Notation "m ;;; k" := (bind m (fun _ => k))
  (at level 100, right associativity).

(** ** Labels *)

(** [d.get(k, dflt)] *)
Definition dict_get {V} (d : gmap EID V) (k : EID) (dflt : V) : V :=
  match d !! k with
  | Some v => v
  | None => dflt
  end.

(** [x in l] *)
Fixpoint py_in (x : string) (l : list string) : bool :=
  match l with
  | [] => false
  | y :: l' => String.eqb y x || py_in x l'
  end.

(** train_severity_model.py, lines 91-100 *)
Definition main_label (intrinsic_errors cad_errors : TagDict) (eid : EID) : Z :=
  if py_in "BAD_ASPECT_RATIO" (dict_get intrinsic_errors eid [])
     || py_in "HIGH_SKEWNESS" (dict_get intrinsic_errors eid [])
     || py_in "CAD_DEVIATION_HIGH" (dict_get cad_errors eid [])
  then 2%Z
  else if py_in "BAD_TRANSITION" (dict_get intrinsic_errors eid [])
  then 1%Z
  else 0%Z.

(** evaluate_model.py, lines 57-66 *)
Definition evaluate_label (intrinsic_errors cad_errors : TagDict) (eid : EID) : Z :=
  if py_in "BAD_ASPECT_RATIO" (dict_get intrinsic_errors eid [])
     || py_in "HIGH_SKEWNESS" (dict_get intrinsic_errors eid [])
     || py_in "CAD_DEVIATION_HIGH" (dict_get cad_errors eid [])
  then 2%Z
  else if py_in "BAD_TRANSITION" (dict_get intrinsic_errors eid [])
  then 1%Z
  else 0%Z.

(** ** Training: train_severity_model.py *)

(** The [for eid in mesh.elements] loop (lines 83-100). *)
Fixpoint main_elements (eids : list EID) (mesh : MeshT) (metrics : MetricsTable K)
    (intrinsic_errors cad_errors : TagDict)
    (X_all : list (FeatureVector K)) (y_all : list Z)
    : M (list (FeatureVector K) * list Z) :=
  match eids with
  | [] => ret (X_all, y_all)
  | eid :: rest =>
      features <~ call (Call_build_feature_vector eid)
        (build_feature_vector K eid mesh metrics intrinsic_errors cad_errors) ;;
      main_elements rest mesh metrics intrinsic_errors cad_errors
        (X_all ++ [features])%list
        (y_all ++ [main_label intrinsic_errors cad_errors eid])%list
  end.

(** One turn of the [for node_csv, elem_csv in mesh_pairs] loop
    (lines 70-100). *)
Definition main_mesh (cad : MeshT) (mesh_pair : Path * Path)
    (X_all : list (FeatureVector K)) (y_all : list Z)
    : M (list (FeatureVector K) * list Z) :=
  let '(node_csv, elem_csv) := mesh_pair in
  print (Info_processing (path_name node_csv)) ;;;
  fs0 <~ get_fs ;;
  mesh <~ call (Call_load_mesh node_csv elem_csv) (load_mesh K fs0 node_csv elem_csv) ;;
  nb <~ call Call_build_element_neighbors (build_element_neighbors K mesh) ;;
  let mesh := mkMesh (mesh_data mesh) (Some nb) in
  metrics <~ call Call_compute_intrinsic_metrics (compute_intrinsic_metrics K mesh) ;;
  intrinsic_errors <~ call Call_detect_intrinsic_errors
    (detect_intrinsic_errors K mesh metrics (element_neighbors mesh)) ;;
  distances <~ call Call_compute_mesh_to_cad_distances
    (compute_mesh_to_cad_distances K mesh cad) ;;
  cad_errors <~ call Call_detect_cad_related_errors
    (detect_cad_related_errors K mesh distances) ;;
  main_elements (elements K (mesh_data mesh)) mesh metrics
    intrinsic_errors cad_errors X_all y_all.

Fixpoint main_meshes (cad : MeshT) (mesh_pairs : list (Path * Path))
    (X_all : list (FeatureVector K)) (y_all : list Z)
    : M (list (FeatureVector K) * list Z) :=
  match mesh_pairs with
  | [] => ret (X_all, y_all)
  | mesh_pair :: rest =>
      acc <~ main_mesh cad mesh_pair X_all y_all ;;
      main_meshes cad rest acc.1 acc.2
  end.

Definition train_params : RFParams :=
  mkRF 200 20 1 42.

(** Lines 46-104: everything up to the aggregate [X_all], [y_all]. *)
Definition main_dataset (vehicle_id : string)
    : M (list (FeatureVector K) * list Z) :=
  print (Info_training_vehicle vehicle_id) ;;;
  let vehicle_root := ["data_2"] // vehicle_id in
  fs0 <~ get_fs ;;
  if negb (path_exists fs0 vehicle_root)
  then raise (VehicleFolderNotFound vehicle_root)
  else
    cad <~ call (Call_load_mesh (vehicle_root // "cad_NODE.csv")
                                (vehicle_root // "cad_ELEMENT.csv"))
             (load_mesh K fs0 (vehicle_root // "cad_NODE.csv")
                              (vehicle_root // "cad_ELEMENT.csv")) ;;
    print Info_cad_loaded ;;;
    fs1 <~ get_fs ;;
    let mesh_pairs := find_first_meshes fs1 vehicle_root in
    print (Info_found (length mesh_pairs)) ;;;
    match mesh_pairs with
    | [] => raise NoFirstMeshes
    | _ => main_meshes cad mesh_pairs [] []
    end.

(** Lines 102-115: conversion and fit. *)
Definition main_fit (X_all : list (FeatureVector K)) (y_all : list Z)
    : M (Model K) :=
  X <~ call Call_asarray (asarray_float32 K X_all) ;;
  let y := y_all in
  print (Info_training_samples X) ;;;
  call (Call_fit train_params) (fit K train_params X y).

(** Lines 117-124: persistence. *)
Definition main_save (vehicle_id : string) (model : Model K) : M unit :=
  let out_dir := ["models"] // vehicle_id in
  record (Call_mkdir out_dir) ;;;
  fs0 <~ get_fs ;;
  match mkdir_parents_exist_ok fs0 out_dir with
  | None => raise (OSError out_dir)
  | Some fs1 =>
      put_fs fs1 ;;;
      let model_path := out_dir // "severity_model.pkl" in
      record (Call_joblib_dump model_path) ;;;
      match write_file fs1 model_path (joblib_dump K model) with
      | None => raise (OSError model_path)
      | Some fs2 =>
          put_fs fs2 ;;;
          print (Ok_model_saved model_path)
      end
  end.

Definition main (vehicle_id : string) : M unit :=
  D <~ main_dataset vehicle_id ;;
  model <~ main_fit D.1 D.2 ;;
  main_save vehicle_id model.

(** ** Evaluation: evaluate_model.py *)

(** The [for eid in mesh.elements] loop (lines 50-66). *)
Fixpoint evaluate_elements (eids : list EID) (mesh : MeshT) (metrics : MetricsTable K)
    (intrinsic_errors cad_errors : TagDict)
    (X : list (FeatureVector K)) (y_true : list Z)
    : M (list (FeatureVector K) * list Z) :=
  match eids with
  | [] => ret (X, y_true)
  | eid :: rest =>
      feat <~ call (Call_build_feature_vector eid)
        (build_feature_vector K eid mesh metrics intrinsic_errors cad_errors) ;;
      evaluate_elements rest mesh metrics intrinsic_errors cad_errors
        (X ++ [feat])%list
        (y_true ++ [evaluate_label intrinsic_errors cad_errors eid])%list
  end.

Definition evaluate (vehicle_id mesh_idx : string) : M unit :=
  let vehicle_root := ["data_2"] // vehicle_id in
  let model_path := ["models"] // vehicle_id // "severity_model.pkl" in
  fs0 <~ get_fs ;;
  if negb (path_exists fs0 model_path)
  then raise (ModelNotFound model_path)
  else
    print (Info_evaluating vehicle_id mesh_idx) ;;;
    record (Call_joblib_load model_path) ;;;
    match read_file fs0 model_path with
    | None => raise (OSError model_path)
    | Some bytes =>
    model <~ lift (joblib_load K bytes) ;;
    cad <~ call (Call_load_mesh (vehicle_root // "cad_NODE.csv")
                                (vehicle_root // "cad_ELEMENT.csv"))
             (load_mesh K fs0 (vehicle_root // "cad_NODE.csv")
                              (vehicle_root // "cad_ELEMENT.csv")) ;;
    let node_csv := vehicle_root // ("first_mesh_" ++ mesh_idx ++ "_NODE.csv") in
    let elem_csv := vehicle_root // ("first_mesh_" ++ mesh_idx ++ "_ELEMENT.csv") in
    mesh <~ call (Call_load_mesh node_csv elem_csv) (load_mesh K fs0 node_csv elem_csv) ;;
    nb <~ call Call_build_element_neighbors (build_element_neighbors K mesh) ;;
    let mesh := mkMesh (mesh_data mesh) (Some nb) in
    metrics <~ call Call_compute_intrinsic_metrics (compute_intrinsic_metrics K mesh) ;;
    intrinsic_errors <~ call Call_detect_intrinsic_errors
      (detect_intrinsic_errors K mesh metrics (element_neighbors mesh)) ;;
    distances <~ call Call_compute_mesh_to_cad_distances
      (compute_mesh_to_cad_distances K mesh cad) ;;
    cad_errors <~ call Call_detect_cad_related_errors
      (detect_cad_related_errors K mesh distances) ;;
    D <~ evaluate_elements (elements K (mesh_data mesh)) mesh metrics
           intrinsic_errors cad_errors [] [] ;;
    X <~ call Call_asarray (asarray_float32 K D.1) ;;
    let y_true := D.2 in
    y_pred <~ call Call_predict (predict K model X) ;;
    a <~ call Call_accuracy_score (accuracy_score K y_true y_pred) ;;
    print (Out_accuracy a) ;;;
    r <~ call Call_classification_report (classification_report K y_true y_pred) ;;
    print (Out_report r)
    end.

End Orchestrators.

Arguments VehicleFolderNotFound {K} vehicle_root.
Arguments NoFirstMeshes {K}.
Arguments ModelNotFound {K} model_path.
Arguments OSError {K} p.
Arguments Raised {K} e.
Arguments mkState {K} fs calls stdout.
Arguments fs {K} s.
Arguments calls {K} s.
Arguments stdout {K} s.
Arguments Call_load_mesh {K} node_csv elem_csv.
Arguments Call_build_element_neighbors {K}.
Arguments Call_compute_intrinsic_metrics {K}.
Arguments Call_detect_intrinsic_errors {K}.
Arguments Call_compute_mesh_to_cad_distances {K}.
Arguments Call_detect_cad_related_errors {K}.
Arguments Call_build_feature_vector {K} eid.
Arguments Call_asarray {K}.
Arguments Call_fit {K} params.
Arguments Call_mkdir {K} p.
Arguments Call_joblib_dump {K} p.
Arguments Call_joblib_load {K} p.
Arguments Call_predict {K}.
Arguments Call_accuracy_score {K}.
Arguments Call_classification_report {K}.
Arguments Info_training_vehicle {K} vehicle_id.
Arguments Info_cad_loaded {K}.
Arguments Info_found {K} n.
Arguments Info_processing {K} name.
Arguments Info_training_samples {K} X.
Arguments Ok_model_saved {K} model_path.
Arguments Info_evaluating {K} vehicle_id mesh_idx.
Arguments Out_accuracy {K} a.
Arguments Out_report {K} r.

Arguments ret {K A} a.
Arguments bind {K A C} m k.
Arguments raise {K A} e.
Arguments get_fs {K}.
Arguments put_fs {K} fs'.
Arguments print {K} m.
Arguments record {K} c.
Arguments lift {K A} r.
Arguments call {K A} c r.
Arguments dict_get {K V} d k dflt.

(** ** The labelling policy in the words of the specification

    HIGH if the intrinsic tags contain BAD_ASPECT_RATIO or HIGH_SKEWNESS, or
    the CAD tags contain CAD_DEVIATION_HIGH; else MEDIUM if the intrinsic tags
    contain BAD_TRANSITION; else LOW. *)

Definition LOW : Z := 0.
Definition MEDIUM : Z := 1.
Definition HIGH : Z := 2.

Definition high_trigger (intrinsicTags cadTags : list string) : Prop :=
  "BAD_ASPECT_RATIO" ∈ intrinsicTags \/ "HIGH_SKEWNESS" ∈ intrinsicTags \/
  "CAD_DEVIATION_HIGH" ∈ cadTags.

Definition policy_label (intrinsicTags cadTags : list string) : Z :=
  if decide (high_trigger intrinsicTags cadTags) then HIGH
  else if decide ("BAD_TRANSITION" ∈ intrinsicTags) then MEDIUM
  else LOW.

(** Calls that create the model directory or write the model file. *)
Definition persist_call {K} (c : Call K) : bool :=
  match c with
  | Call_mkdir _ | Call_joblib_dump _ => true
  | _ => false
  end.

(** Between [st] and [st'] the file system did not change and no call
    created the model directory or wrote the model. *)
Definition untouched {K} (st st' : State K) : Prop :=
  fs st' = fs st /\
  exists new, calls st' = (calls st ++ new)%list /\
              Forall (fun c => persist_call c = false) new.

Definition quiet {K A} (m : M K A) : Prop :=
  forall st r st', m st = (r, st') -> untouched st st'.

(** What one mesh contributes to the data set: for the mesh loaded from
    [mesh_pair] and analysed against [cad], its element ids in iteration
    order, one feature row per id, and one label per id. *)
Definition mesh_rows (K : Collaborators) (cad : Mesh (MeshData K) (NeighborMap K))
    (disk : FS (FileContent K)) (mesh_pair : Path * Path)
    (eids : list (ElementID K)) (Xm : list (FeatureVector K)) (ym : list Z) : Prop :=
  exists m0 nb metrics intrinsic_errors distances cad_errors,
    let mesh := mkMesh (mesh_data m0) (Some nb) in
    load_mesh K disk mesh_pair.1 mesh_pair.2 = inr m0 /\
    build_element_neighbors K m0 = inr nb /\
    compute_intrinsic_metrics K mesh = inr metrics /\
    detect_intrinsic_errors K mesh metrics (Some nb) = inr intrinsic_errors /\
    compute_mesh_to_cad_distances K mesh cad = inr distances /\
    detect_cad_related_errors K mesh distances = inr cad_errors /\
    eids = elements K (mesh_data m0) /\
    Forall2 (fun eid f =>
      build_feature_vector K eid mesh metrics intrinsic_errors cad_errors = inr f)
      eids Xm /\
    ym = map (main_label K intrinsic_errors cad_errors) eids.

(** ** A small concrete world

    Element ids are numbers; a table file holds the ids of its rows; a model
    remembers what it was fitted on.  Used to run the orchestrators. *)

Inductive ToyBytes :=
| Csv (ids : list nat)
| Pkl (params : RFParams) (X : list nat) (y : list Z).

Definition toy_load (fs0 : FS ToyBytes) (node_csv elem_csv : Path)
    : string + Mesh (list nat) unit :=
  match read_file fs0 node_csv, read_file fs0 elem_csv with
  | Some (Csv _), Some (Csv ids) => inr (mkMesh ids None)
  | _, _ => inl "unreadable table"
  end.

Definition toy_intrinsic : gmap nat (list string) :=
  <[1 := ["BAD_TRANSITION"]]>
    (<[2 := ["HIGH_SKEWNESS"; "BAD_TRANSITION"]]>
      (<[4 := ["SOME_OTHER_TAG"]]> ∅)).

Definition toy_cad : gmap nat (list string) :=
  <[3 := ["CAD_DEVIATION_HIGH"]]> ∅.

Definition toy_unpickle (b : ToyBytes) : string + (RFParams * list nat * list Z) :=
  match b with
  | Pkl p X y => inr (p, X, y)
  | Csv _ => inl "not a model"
  end.

Definition toy : Collaborators := {|
  ElementID := nat;
  FileContent := ToyBytes;
  MeshData := list nat;
  NeighborMap := unit;
  MetricsTable := unit;
  DistanceTable := unit;
  FeatureVector := nat;
  Array := list nat;
  Model := RFParams * list nat * list Z;
  Predictions := list Z;
  Score := nat;
  Report := unit;
  ExternalError := string;
  elements := fun ids => ids;
  load_mesh := toy_load;
  build_element_neighbors := fun _ => inr tt;
  compute_intrinsic_metrics := fun _ => inr tt;
  detect_intrinsic_errors := fun _ _ _ => inr toy_intrinsic;
  compute_mesh_to_cad_distances := fun _ _ => inr tt;
  detect_cad_related_errors := fun _ _ => inr toy_cad;
  build_feature_vector := fun eid _ _ _ _ =>
    if Nat.eqb eid 99 then inl "no features" else inr (10 * eid);
  asarray_float32 := fun X => inr X;
  fit := fun p X y => inr (p, X, y);
  predict := fun _ X => inr (map (fun _ => 0%Z) X);
  joblib_dump := fun m => Pkl m.1.1 m.1.2 m.2;
  joblib_load := toy_unpickle;
  accuracy_score := fun y_true y_pred =>
    inr (length (filter (fun yp => yp.1 = yp.2) (zip y_true y_pred)));
  classification_report := fun _ _ => inr tt
|}.

Definition toy_root : Path := ["data_2"; "01_"].

(** data_2/01_ with CAD tables and mesh variants "1" and "2", enumerated
    with variant "2" first. *)
Definition toy_fs : FS ToyBytes :=
  [ (["data_2"], Dir);
    (toy_root, Dir);
    (toy_root // "first_mesh_2_NODE.csv", File (Csv [7; 8]));
    (toy_root // "cad_NODE.csv", File (Csv [1]));
    (toy_root // "first_mesh_2_ELEMENT.csv", File (Csv [3; 4]));
    (toy_root // "cad_ELEMENT.csv", File (Csv [1]));
    (toy_root // "first_mesh_1_ELEMENT.csv", File (Csv [1; 2; 5]));
    (toy_root // "first_mesh_1_NODE.csv", File (Csv [9])) ].

(** data_2/01_ with CAD tables and one pair whose token is not a number. *)
Definition toy_fs_named : FS ToyBytes :=
  [ (["data_2"], Dir);
    (toy_root, Dir);
    (toy_root // "cad_NODE.csv", File (Csv [1]));
    (toy_root // "cad_ELEMENT.csv", File (Csv [1]));
    (toy_root // "first_mesh_a_NODE.csv", File (Csv [9]));
    (toy_root // "first_mesh_a_ELEMENT.csv", File (Csv [1; 2])) ].

(** data_2/01_ with one mesh variant holding an element (99) for which no
    features can be built, and a model left by an earlier run. *)
Definition toy_fs_broken : FS ToyBytes :=
  [ (["data_2"], Dir);
    (toy_root, Dir);
    (toy_root // "cad_NODE.csv", File (Csv [1]));
    (toy_root // "cad_ELEMENT.csv", File (Csv [1]));
    (toy_root // "first_mesh_1_NODE.csv", File (Csv [9]));
    (toy_root // "first_mesh_1_ELEMENT.csv", File (Csv [1; 99; 2]));
    (["models"], Dir);
    (["models"; "01_"], Dir);
    (["models"; "01_"; "severity_model.pkl"], File (Pkl (mkRF 200 20 1 42) [10] [1%Z])) ].

Definition toy_state (fs0 : FS ToyBytes) : State toy := @mkState toy fs0 [] [].

(** The state a first training run over [toy_fs] leaves behind. *)
Definition toy_trained : State toy := (main toy "01_" (toy_state toy_fs)).2.

(** data_2/01_ where the only node table for variant "3" is a stray copy. *)
Definition toy_fs_stray : FS ToyBytes :=
  [ (["data_2"], Dir);
    (toy_root, Dir);
    (toy_root // "cad_NODE.csv", File (Csv [1]));
    (toy_root // "cad_ELEMENT.csv", File (Csv [1]));
    (toy_root // "first_mesh_3_NODE.csv_old_NODE.csv", File (Csv [9]));
    (toy_root // "first_mesh_3_ELEMENT.csv", File (Csv [1; 2])) ].

(** data_2/01_ with one mesh variant that has no element at all. *)
Definition toy_fs_empty_mesh : FS ToyBytes :=
  [ (["data_2"], Dir);
    (toy_root, Dir);
    (toy_root // "cad_NODE.csv", File (Csv [1]));
    (toy_root // "cad_ELEMENT.csv", File (Csv [1]));
    (toy_root // "first_mesh_1_NODE.csv", File (Csv [9]));
    (toy_root // "first_mesh_1_ELEMENT.csv", File (Csv [])) ].

(** [toy_fs_named] together with a model left by a training run on other
    data. *)
Definition toy_fs_named_model : FS ToyBytes :=
  (toy_fs_named ++
   [ (["models"], Dir);
     (["models"; "01_"], Dir);
     (["models"; "01_"; "severity_model.pkl"],
      File (Pkl (mkRF 200 20 1 42) [10] [1%Z])) ])%list.


(** ** Call logs *)

(** The calls one turn of the mesh loop makes when nothing fails. *)
Definition mesh_calls {K} (mesh_pair : Path * Path) (eids : list (ElementID K))
    : list (Call K) :=
  ([ Call_load_mesh mesh_pair.1 mesh_pair.2;
     Call_build_element_neighbors;
     Call_compute_intrinsic_metrics;
     Call_detect_intrinsic_errors;
     Call_compute_mesh_to_cad_distances;
     Call_detect_cad_related_errors ]
   ++ map Call_build_feature_vector eids)%list.

(** Calls that fit a classifier or write to the models directory. *)
Definition training_call {K} (c : Call K) : bool :=
  match c with
  | Call_fit _ | Call_mkdir _ | Call_joblib_dump _ => true
  | _ => false
  end.

(** Running [m] never changes the file system and never makes a call
    that [bad] singles out. *)
Definition avoids {K A} (bad : Call K -> bool) (m : M K A) : Prop :=
  forall st r st', m st = (r, st') ->
    fs st' = fs st /\
    exists new, calls st' = (calls st ++ new)%list /\
                Forall (fun c => bad c = false) new.

(** Whenever [m] fails, its exception satisfies [P]. *)
Definition fails_with {K A} (P : Exn K -> Prop) (m : M K A) : Prop :=
  forall st e st', m st = (inl e, st') -> P e.

Definition is_raised {K} (e : Exn K) : Prop := exists err, e = Raised err.

(** * Properties *)

(** ** The embedding at work *)

Example search_plain :
  re_search node_regex "first_mesh_12_NODE.csv" = Some "12".
Proof. reflexivity. Qed.

Example search_leading_zero :
  re_search node_regex "first_mesh_007_NODE.csv" = Some "007".
Proof. reflexivity. Qed.

Example search_not_a_number :
  re_search node_regex "first_mesh_v2_NODE.csv" = None.
Proof. reflexivity. Qed.

Example search_is_unanchored :
  re_search node_regex "first_mesh_first_mesh_12_NODE.csv" = Some "12".
Proof. reflexivity. Qed.

Example glob_needs_both_ends :
  glob_match node_glob "first_mesh_v2_NODE.csv" = true /\
  glob_match node_glob "first_mesh_NODE.csv" = false /\
  glob_match node_glob "first_mesh_1_NODE.csv.bak" = false.
Proof. repeat split. Qed.

Example sorted_is_by_text :
  sorted [ (toy_root // "first_mesh_9_NODE.csv", toy_root // "first_mesh_9_ELEMENT.csv");
           (toy_root // "first_mesh_10_NODE.csv", toy_root // "first_mesh_10_ELEMENT.csv") ]
  = [ (toy_root // "first_mesh_10_NODE.csv", toy_root // "first_mesh_10_ELEMENT.csv");
      (toy_root // "first_mesh_9_NODE.csv", toy_root // "first_mesh_9_ELEMENT.csv") ].
Proof. vm_compute. reflexivity. Qed.


(** ... three plus two rows, and a model at models/01_/severity_model.pkl. *)
Example two_variants_trained :
  (main toy "01_" (toy_state toy_fs)).1 = inr tt /\
  read_file (fs toy_trained) ["models"; "01_"; "severity_model.pkl"]
    = Some (Pkl (mkRF 200 20 1 42) [10; 20; 50; 30; 40] [1; 2; 0; 2; 0]%Z).
Proof. split; vm_compute; reflexivity. Qed.

(** {BAD_TRANSITION} gives MEDIUM, no tags LOW, {HIGH_SKEWNESS,
    BAD_TRANSITION} HIGH, a CAD deviation HIGH, an unknown tag LOW. *)
Example labels_of_the_toy_elements :
  map (main_label toy toy_intrinsic toy_cad) [1; 5; 2; 3; 4] = [1; 0; 2; 2; 0]%Z.
Proof. vm_compute. reflexivity. Qed.

(** Evaluation of variant "1" with the model of the first run. *)
Example evaluation_after_training :
  (evaluate toy "01_" "1" toy_trained).1 = inr tt /\
  fs (evaluate toy "01_" "1" toy_trained).2 = fs toy_trained.
Proof. split; vm_compute; reflexivity. Qed.

(** ** The order used by [sorted] *)

Lemma ascii_compare_refl a : Ascii.compare a a = Eq.
Proof. unfold Ascii.compare. apply N.compare_refl. Qed.

Lemma ascii_compare_lt_trans a b c :
  Ascii.compare a b = Lt -> Ascii.compare b c = Lt -> Ascii.compare a c = Lt.
Proof. unfold Ascii.compare. rewrite !N.compare_lt_iff. lia. Qed.

Lemma string_compare_refl s : String.compare s s = Eq.
Proof. induction s as [|a s IH]; simpl; [done|]. by rewrite ascii_compare_refl. Qed.

Lemma string_compare_lt_trans s t u :
  String.compare s t = Lt -> String.compare t u = Lt -> String.compare s u = Lt.
Proof.
  revert t u. induction s as [|a s IH]; intros [|b t] [|c u]; simpl; try done.
  destruct (Ascii.compare a b) eqn:Eab; try done;
    destruct (Ascii.compare b c) eqn:Ebc; try done; intros H1 H2.
  - apply Ascii.compare_eq_iff in Eab, Ebc. subst.
    rewrite ascii_compare_refl. eauto.
  - apply Ascii.compare_eq_iff in Eab. subst. by rewrite Ebc.
  - apply Ascii.compare_eq_iff in Ebc. subst. by rewrite Eab.
  - by rewrite (ascii_compare_lt_trans _ _ _ Eab Ebc).
Qed.

Lemma path_compare_refl p : path_compare p p = Eq.
Proof. induction p as [|a p IH]; simpl; [done|]. by rewrite string_compare_refl. Qed.

Lemma path_compare_eq p q : path_compare p q = Eq -> p = q.
Proof.
  revert q. induction p as [|a p IH]; intros [|b q]; simpl; try done.
  destruct (String.compare a b) eqn:E; try done.
  apply String.compare_eq_iff in E. intros H. f_equal; auto.
Qed.

Lemma path_compare_antisym p q : path_compare q p = CompOpp (path_compare p q).
Proof.
  revert q. induction p as [|a p IH]; intros [|b q]; simpl; try done.
  rewrite (String.compare_antisym b a).
  destruct (String.compare a b); simpl; auto.
Qed.

Lemma path_compare_lt_trans p q r :
  path_compare p q = Lt -> path_compare q r = Lt -> path_compare p r = Lt.
Proof.
  revert q r. induction p as [|a p IH]; intros [|b q] [|c r]; simpl; try done.
  destruct (String.compare a b) eqn:Eab; try done;
    destruct (String.compare b c) eqn:Ebc; try done; intros H1 H2.
  - apply String.compare_eq_iff in Eab, Ebc. subst.
    rewrite string_compare_refl. eauto.
  - apply String.compare_eq_iff in Eab. subst. by rewrite Ebc.
  - apply String.compare_eq_iff in Ebc. subst. by rewrite Eab.
  - by rewrite (string_compare_lt_trans _ _ _ Eab Ebc).
Qed.

Lemma pair_compare_eq a b : pair_compare a b = Eq -> a = b.
Proof.
  destruct a as [a1 a2], b as [b1 b2]. unfold pair_compare. simpl.
  destruct (path_compare a1 b1) eqn:E; try done.
  intros H. apply path_compare_eq in E, H. by subst.
Qed.

Lemma pair_compare_antisym a b : pair_compare b a = CompOpp (pair_compare a b).
Proof.
  unfold pair_compare. rewrite (path_compare_antisym a.1 b.1).
  destruct (path_compare a.1 b.1); simpl; auto using path_compare_antisym.
Qed.

Lemma pair_compare_lt_trans a b c :
  pair_compare a b = Lt -> pair_compare b c = Lt -> pair_compare a c = Lt.
Proof.
  unfold pair_compare.
  destruct (path_compare a.1 b.1) eqn:Eab; try done;
    destruct (path_compare b.1 c.1) eqn:Ebc; try done; intros H1 H2.
  - apply path_compare_eq in Eab, Ebc. rewrite Eab, Ebc, path_compare_refl.
    eauto using path_compare_lt_trans.
  - apply path_compare_eq in Eab. by rewrite Eab, Ebc.
  - apply path_compare_eq in Ebc. by rewrite <- Ebc, Eab.
  - by rewrite (path_compare_lt_trans _ _ _ Eab Ebc).
Qed.

Lemma pair_le_alt a b : pair_le a b <-> pair_compare a b <> Gt.
Proof.
  unfold pair_le, pair_lt. rewrite (pair_compare_antisym a b).
  destruct (pair_compare a b); simpl; naive_solver.
Qed.

#[global] Instance pair_le_total : Total pair_le.
Proof.
  intros a b. rewrite !pair_le_alt, (pair_compare_antisym a b).
  destruct (pair_compare a b); simpl; naive_solver.
Qed.

#[global] Instance pair_le_trans : Transitive pair_le.
Proof.
  intros a b c. rewrite !pair_le_alt. intros Hab Hbc Hac.
  rewrite (pair_compare_antisym c a) in Hac.
  destruct (pair_compare c a) eqn:Eca; try done. clear Hac.
  destruct (pair_compare a b) eqn:Eab; try done.
  - apply pair_compare_eq in Eab. subst b.
    rewrite (pair_compare_antisym c a), Eca in Hbc. done.
  - destruct (pair_compare b c) eqn:Ebc; try done.
    + apply pair_compare_eq in Ebc. subst c.
      rewrite (pair_compare_antisym b a), Eca in Eab. done.
    + pose proof (pair_compare_lt_trans _ _ _ Ebc Eca) as Hba.
      rewrite (pair_compare_antisym b a), Hba in Eab. done.
Qed.

#[global] Instance pair_le_antisym : AntiSymm (=) pair_le.
Proof.
  intros a b. rewrite !pair_le_alt. intros Hab Hba.
  rewrite (pair_compare_antisym a b) in Hba.
  destruct (pair_compare a b) eqn:E; try done.
  by apply pair_compare_eq.
Qed.

Lemma sorted_Permutation l : sorted l ≡ₚ l.
Proof. apply merge_sort_Permutation. Qed.




(** ** Patterns *)

Lemma string_app_nil (t : string) : EmptyString ++ t = t.
Proof. reflexivity. Qed.

Lemma string_app_cons c (s t : string) : String c s ++ t = String c (s ++ t).
Proof. reflexivity. Qed.

Lemma string_app_assoc (s t u : string) : (s ++ t) ++ u = s ++ (t ++ u).
Proof.
  induction s as [|c s IH]; rewrite ?string_app_nil, ?string_app_cons; congruence.
Qed.

Lemma re_match_lits p re s g :
  re_match (lits p ++ re)%list (p ++ s) g = re_match re s g.
Proof.
  induction p as [|c p IH]; [done|].
  rewrite string_app_cons. unfold lits in *. simpl.
  by rewrite Ascii.eqb_refl.
Qed.

Lemma glob_match_glits p gp s :
  glob_match (glits p ++ gp)%list (p ++ s) = glob_match gp s.
Proof.
  induction p as [|c p IH]; [done|].
  rewrite string_app_cons. unfold glits in *. simpl.
  by rewrite Ascii.eqb_refl.
Qed.

Lemma star_loop_skip k s t : k t = true -> star_loop k (s ++ t) = true.
Proof.
  intros Hk. induction s as [|c s IH].
  - rewrite string_app_nil. destruct t; simpl; by rewrite Hk.
  - rewrite string_app_cons. simpl. rewrite IH. apply orb_true_r.
Qed.

Lemma plus_loop_stops a k acc s :
  match s with
  | EmptyString => True
  | String c _ => atom_ok a c = false
  end ->
  plus_loop a k acc s = None.
Proof. destruct s as [|c s]; simpl; [done|]. by intros ->. Qed.

(** The greedy repetition takes a whole run [ds] that is followed by
    something it cannot take, when the rest of the pattern accepts there. *)
Lemma plus_loop_run a k ds : forall acc rest g,
  ds <> EmptyString ->
  forallb (atom_ok a) (chars ds) = true ->
  match rest with
  | EmptyString => True
  | String c _ => atom_ok a c = false
  end ->
  k (acc ++ ds) rest = Some g ->
  plus_loop a k acc (ds ++ rest) = Some g.
Proof.
  induction ds as [|c ds IH]; intros acc rest g Hne Hall Hrest Hk; [done|].
  simpl in Hall. apply andb_true_iff in Hall as [Hc Hall].
  rewrite string_app_cons. simpl. rewrite Hc.
  destruct ds as [|d ds].
  - rewrite string_app_nil. by rewrite plus_loop_stops.
  - rewrite (IH (acc ++ String c EmptyString) rest g); try done.
    by rewrite string_app_assoc.
Qed.

Lemma node_glob_accepts idx :
  glob_match node_glob ("first_mesh_" ++ idx ++ "_NODE.csv") = true.
Proof.
  unfold node_glob. rewrite glob_match_glits.
  change (star_loop (glob_match (glits "_NODE.csv")) (idx ++ "_NODE.csv") = true).
  by apply star_loop_skip.
Qed.

Lemma node_regex_extracts idx :
  numeric_token idx ->
  re_search node_regex ("first_mesh_" ++ idx ++ "_NODE.csv") = Some idx.
Proof.
  intros [Hne Hdig].
  assert (re_match node_regex ("first_mesh_" ++ idx ++ "_NODE.csv") EmptyString
          = Some idx) as Hm.
  { unfold node_regex. rewrite re_match_lits.
    change (plus_loop Digit
              (fun g' s' => re_match (lits "_NODE" ++ [One Dot] ++ lits "csv")%list s' g')
              EmptyString (idx ++ "_NODE.csv") = Some idx).
    by apply plus_loop_run. }
  destruct idx as [|c idx]; [done|].
  change ("first_mesh_" ++ String c idx ++ "_NODE.csv")
    with (String "f" ("irst_mesh_" ++ String c idx ++ "_NODE.csv")) in *.
  unfold re_search; fold re_search. by rewrite Hm.
Qed.

(** ** The file system *)

Section FileSystemFacts.
Context {B : Type}.
Implicit Types (disk : FS B) (p q : Path).

Lemma fs_lookup_is_Some disk p : is_Some (fs_lookup disk p) <-> p ∈ disk.*1.
Proof.
  induction disk as [|[q n] disk IH]; simpl.
  - split; [by intros [? ?]|by intros ?%elem_of_nil].
  - rewrite elem_of_cons. destruct (decide (q = p)) as [->|Hne].
    + split; eauto.
    + rewrite IH. split; [by right|]. by intros [->|?].
Qed.

Lemma path_exists_elem disk p : path_exists disk p = true <-> p ∈ disk.*1.
Proof.
  rewrite <- fs_lookup_is_Some. unfold path_exists.
  destruct (fs_lookup disk p); split; intros H; try done; eauto.
Qed.


Lemma child_of_join p name : child_of p (p // name) = Some name.
Proof.
  induction p as [|a p IH]; simpl; [done|]. by rewrite decide_True.
Qed.

Lemma child_of_inv p q name : child_of p q = Some name -> q = p // name.
Proof.
  revert q. induction p as [|a p IH]; intros [|b q]; simpl; try done.
  - destruct q; [|done]. by intros [= ->].
  - case_decide; [|done]. subst. intros H. by rewrite (IH _ H).
Qed.

Lemma path_name_join p name : path_name (p // name) = name.
Proof. unfold path_name, path_join. apply last_last. Qed.

Lemma elem_of_path_glob disk p pat q :
  q ∈ path_glob disk p pat <->
  exists name, q = p // name /\ path_exists disk q = true /\ glob_match pat name = true.
Proof.
  unfold path_glob. rewrite list_elem_of_filter, <- path_exists_elem.
  unfold glob_hit. split.
  - intros [Hhit Hin]. destruct (child_of p q) as [name|] eqn:E; [|done].
    exists name. apply child_of_inv in E. split_and!; try done.
    by apply Is_true_true.
  - intros (name & -> & Hin & Hm). rewrite child_of_join.
    split; [by apply Is_true_true|done].
Qed.


Lemma find_loop_omap disk root nodes pairs :
  find_loop disk root nodes pairs = (pairs ++ omap (found_pair disk root) nodes)%list.
Proof.
  revert pairs. induction nodes as [|n nodes IH]; intros pairs; simpl.
  - by rewrite app_nil_r.
  - unfold found_pair at 1.
    destruct (re_search node_regex (path_name n)) as [idx|]; [|apply IH].
    destruct (path_exists disk _); [|apply IH].
    by rewrite IH, <- app_assoc.
Qed.


Lemma elem_of_find_first_meshes disk root n e :
  (n, e) ∈ find_first_meshes disk root <->
  exists name idx,
    n = root // name /\ path_exists disk n = true /\
    glob_match node_glob name = true /\
    re_search node_regex name = Some idx /\
    e = root // ("first_mesh_" ++ idx ++ "_ELEMENT.csv") /\
    path_exists disk e = true.
Proof.
  unfold find_first_meshes.
  rewrite sorted_Permutation, find_loop_omap, app_nil_l, list_elem_of_omap.
  split.
  - intros (q & Hq & Hf). apply elem_of_path_glob in Hq as (name & -> & Hex & Hm).
    unfold found_pair in Hf. rewrite path_name_join in Hf.
    destruct (re_search node_regex name) as [idx|] eqn:Hre; [|done].
    destruct (path_exists disk (root // ("first_mesh_" ++ idx ++ "_ELEMENT.csv")))
      eqn:Hee; [|done].
    injection Hf as <- <-. by exists name, idx.
  - intros (name & idx & -> & Hex & Hm & Hre & -> & Hee).
    exists (root // name). split.
    + apply elem_of_path_glob. by exists name.
    + unfold found_pair. by rewrite path_name_join, Hre, Hee.
Qed.


Lemma fs_lookup_app disk1 disk2 p :
  fs_lookup (disk1 ++ disk2)%list p =
    match fs_lookup disk1 p with
    | Some n => Some n
    | None => fs_lookup disk2 p
    end.
Proof.
  induction disk1 as [|[q n] disk1 IH]; simpl; [done|].
  by case_decide.
Qed.

Lemma fs_lookup_overwrite disk p c :
  is_Some (fs_lookup disk p) ->
  fs_lookup (map (overwrite p c) disk) p = Some (File c).
Proof.
  induction disk as [|[q n] disk IH]; simpl; [by intros [? ?]|].
  unfold overwrite at 1. simpl.
  destruct (decide (q = p)) as [->|Hne]; simpl.
  - by rewrite decide_True.
  - by rewrite decide_False.
Qed.

Lemma write_file_lookup disk p c disk' :
  write_file disk p c = Some disk' -> fs_lookup disk' p = Some (File c).
Proof.
  unfold write_file. destruct (fs_lookup disk p) as [[|c0]|] eqn:E; [done| |].
  - intros [= <-]. apply fs_lookup_overwrite. by rewrite E.
  - destruct (fs_lookup disk (removelast p)) as [[|?]|]; try done.
    intros [= <-]. rewrite fs_lookup_app, E. simpl. by rewrite decide_True.
Qed.

Lemma mkdir_each_lookup ps : forall disk disk' p,
  mkdir_each disk ps = Some disk' -> p ∉ ps ->
  fs_lookup disk' p = fs_lookup disk p.
Proof.
  induction ps as [|q ps IH]; intros disk disk' p H Hp; simpl in H.
  - by injection H as <-.
  - apply not_elem_of_cons in Hp as [Hne Hp].
    destruct (fs_lookup disk q) as [[|c]|] eqn:E; try done.
    + by apply IH.
    + rewrite (IH _ _ _ H Hp), fs_lookup_app. simpl.
      rewrite decide_False by done. by destruct (fs_lookup disk p).
Qed.

End FileSystemFacts.

(** ** Labels *)

Lemma py_in_spec x l : py_in x l = true <-> x ∈ l.
Proof.
  induction l as [|y l IH]; simpl.
  - split; [done|by intros ?%elem_of_nil].
  - rewrite orb_true_iff, IH, elem_of_cons, String.eqb_eq.
    split; intros [->|?]; auto.
Qed.

Lemma py_in_decide x l : py_in x l = bool_decide (x ∈ l).
Proof.
  apply eq_true_iff_eq. by rewrite py_in_spec, bool_decide_eq_true.
Qed.

Section LabelFacts.
Context (K : Collaborators).
Implicit Types (ie ce : gmap (ElementID K) (list string)) (eid : ElementID K).

Lemma main_label_policy ie ce eid :
  main_label K ie ce eid = policy_label (dict_get ie eid []) (dict_get ce eid []).
Proof.
  unfold main_label, policy_label, high_trigger. rewrite !py_in_decide.
  repeat case_decide; repeat case_bool_decide; simpl; try done; tauto.
Qed.

Lemma evaluate_label_main_label ie ce eid :
  evaluate_label K ie ce eid = main_label K ie ce eid.
Proof. reflexivity. Qed.

Lemma dict_get_insert {V} (d : gmap (ElementID K) V) eid v dflt :
  dict_get (<[eid := v]> d) eid dflt = v.
Proof. unfold dict_get. by rewrite lookup_insert_eq. Qed.

Lemma dict_get_missing {V} (d : gmap (ElementID K) V) eid dflt :
  d !! eid = None -> dict_get d eid dflt = dflt.
Proof. unfold dict_get. by intros ->. Qed.

Lemma policy_label_range it ct :
  policy_label it ct = LOW \/ policy_label it ct = MEDIUM \/ policy_label it ct = HIGH.
Proof. unfold policy_label. repeat case_decide; auto. Qed.

End LabelFacts.

(** ** The run monad *)

Section MonadFacts.
Context {K : Collaborators}.

Lemma bind_inv {A C} (m : M K A) (k : A -> M K C) st r st' :
  bind m k st = (r, st') ->
  (exists e, m st = (inl e, st') /\ r = inl e) \/
  (exists a s1, m st = (inr a, s1) /\ k a s1 = (r, st')).
Proof.
  unfold bind. destruct (m st) as [[e|a] s1]; intros H.
  - left. exists e. by injection H as <- <-.
  - right. by exists a, s1.
Qed.

Lemma bind_inr {A C} (m : M K A) (k : A -> M K C) st a s1 :
  m st = (inr a, s1) -> bind m k st = k a s1.
Proof. unfold bind. by intros ->. Qed.

Lemma bind_inl {A C} (m : M K A) (k : A -> M K C) st e s1 :
  m st = (inl e, s1) -> bind m k st = (inl e, s1).
Proof. unfold bind. by intros ->. Qed.

Lemma untouched_refl (st : State K) : untouched st st.
Proof. split; [done|]. exists []. by rewrite app_nil_r. Qed.

Lemma untouched_print (st : State K) m :
  untouched st (mkState (fs st) (calls st) (stdout st ++ [m])%list).
Proof. split; [done|]. exists []. by rewrite app_nil_r. Qed.

Lemma untouched_trans (s1 s2 s3 : State K) :
  untouched s1 s2 -> untouched s2 s3 -> untouched s1 s3.
Proof.
  intros (Hfs & new & Hc & Hnew) (Hfs' & new' & Hc' & Hnew').
  split; [congruence|]. exists (new ++ new')%list.
  split; [by rewrite Hc', Hc, app_assoc|by apply Forall_app].
Qed.

Lemma quiet_ret {A} (a : A) : quiet (K := K) (ret a).
Proof. intros st r st' [= <- <-]. apply untouched_refl. Qed.

Lemma quiet_raise {A} e : quiet (K := K) (A := A) (raise e).
Proof. intros st r st' [= <- <-]. apply untouched_refl. Qed.

Lemma quiet_get_fs : quiet (K := K) get_fs.
Proof. intros st r st' [= <- <-]. apply untouched_refl. Qed.

Lemma quiet_print m : quiet (K := K) (print m).
Proof. intros st r st' [= <- <-]. apply untouched_print. Qed.

Lemma quiet_record c : persist_call c = false -> quiet (K := K) (record c).
Proof.
  intros Hc st r st' [= <- <-]. split; [done|]. exists [c]. split; [done|].
  by constructor.
Qed.

Lemma quiet_lift {A} (r : ExternalError K + A) : quiet (lift r).
Proof. destruct r; [apply quiet_raise|apply quiet_ret]. Qed.

Lemma quiet_bind {A C} (m : M K A) (k : A -> M K C) :
  quiet m -> (forall a, quiet (k a)) -> quiet (bind m k).
Proof.
  intros Hm Hk st r st' H. apply bind_inv in H as [(e & H & ->)|(a & s1 & H & H')].
  - by apply Hm in H.
  - apply Hm in H. apply Hk in H'. by apply (untouched_trans st s1 st').
Qed.

Lemma quiet_call {A} c (r : ExternalError K + A) :
  persist_call c = false -> quiet (call c r).
Proof.
  intros Hc. apply quiet_bind; [by apply quiet_record|].
  intros _. apply quiet_lift.
Qed.

Lemma call_inv_inr {A} (c : Call K) (r : ExternalError K + A) (st st' : State K) a :
  call c r st = (inr a, st') ->
  r = inr a /\ st' = mkState (fs st) (calls st ++ [c])%list (stdout st).
Proof.
  unfold call, bind, record, lift. destruct r as [err|a']; simpl.
  - intros [=].
  - by intros [= <- <-].
Qed.

Lemma call_inv_inl {A} (c : Call K) (r : ExternalError K + A) (st st' : State K) e :
  call c r st = (inl e, st') ->
  exists err, r = inl err /\ e = Raised err.
Proof.
  unfold call, bind, record, lift. destruct r as [err|a']; simpl.
  - intros [= <- <-]. by exists err.
  - intros [=].
Qed.

Lemma call_ok {A} (c : Call K) (a : A) (st : State K) :
  call c (inr a) st = (inr a, mkState (fs st) (calls st ++ [c])%list (stdout st)).
Proof. reflexivity. Qed.

End MonadFacts.

Create HintDb quiet.
#[local] Hint Resolve quiet_ret quiet_raise quiet_get_fs quiet_print
  quiet_lift : quiet.

Ltac quiet_step :=
  first
    [ apply quiet_bind; [|intros ?]
    | apply quiet_call; reflexivity
    | apply quiet_record; reflexivity
    | solve [auto with quiet] ].

Section TrainingFacts.
Context (K : Collaborators).
Implicit Types (ie ce : gmap (ElementID K) (list string)).

Lemma quiet_main_elements eids mesh metrics ie ce X_all y_all :
  quiet (main_elements K eids mesh metrics ie ce X_all y_all).
Proof.
  revert X_all y_all. induction eids as [|eid eids IH]; intros X_all y_all; simpl.
  - apply quiet_ret.
  - repeat quiet_step.
Qed.

Lemma quiet_main_mesh cad mesh_pair X_all y_all :
  quiet (main_mesh K cad mesh_pair X_all y_all).
Proof.
  destruct mesh_pair as [node_csv elem_csv]. unfold main_mesh.
  repeat quiet_step. apply quiet_main_elements.
Qed.

Lemma quiet_main_meshes cad mesh_pairs X_all y_all :
  quiet (main_meshes K cad mesh_pairs X_all y_all).
Proof.
  revert X_all y_all.
  induction mesh_pairs as [|mp rest IH]; intros X_all y_all; simpl.
  - apply quiet_ret.
  - apply quiet_bind; [apply quiet_main_mesh|]. intros acc. apply IH.
Qed.

Lemma quiet_main_dataset vehicle_id : quiet (main_dataset K vehicle_id).
Proof.
  unfold main_dataset.
  apply quiet_bind; [apply quiet_print|intros _].
  apply quiet_bind; [apply quiet_get_fs|intros fs0].
  destruct (negb (path_exists fs0 _)); [apply quiet_raise|].
  apply quiet_bind; [by apply quiet_call|intros cad].
  apply quiet_bind; [apply quiet_print|intros _].
  apply quiet_bind; [apply quiet_get_fs|intros fs1].
  apply quiet_bind; [apply quiet_print|intros _].
  destruct (find_first_meshes fs1 _); [apply quiet_raise|].
  apply quiet_main_meshes.
Qed.

Lemma main_elements_inv eids mesh metrics ie ce : forall X0 y0 st X y st',
  main_elements K eids mesh metrics ie ce X0 y0 st = (inr (X, y), st') ->
  exists Xm,
    Forall2 (fun eid f => build_feature_vector K eid mesh metrics ie ce = inr f)
      eids Xm /\
    X = (X0 ++ Xm)%list /\ y = (y0 ++ map (main_label K ie ce) eids)%list.
Proof.
  induction eids as [|eid eids IH]; intros X0 y0 st X y st' H; simpl in H.
  - injection H as <- <- <-. exists []. by rewrite !app_nil_r.
  - apply bind_inv in H as [(e & _ & [=])|(f & s1 & Hf & H)].
    apply call_inv_inr in Hf as [Hf ->].
    apply IH in H as (Xm & HF & -> & ->).
    exists (f :: Xm). split; [by constructor|].
    by rewrite <- !app_assoc.
Qed.

Lemma main_elements_fail eids mesh metrics ie ce : forall X0 y0 st e st',
  main_elements K eids mesh metrics ie ce X0 y0 st = (inl e, st') ->
  exists eid err,
    eid ∈ eids /\
    build_feature_vector K eid mesh metrics ie ce = inl err /\ e = Raised err.
Proof.
  induction eids as [|eid eids IH]; intros X0 y0 st e st' H; simpl in H; [done|].
  apply bind_inv in H as [(e' & Hf & [= <-])|(f & s1 & Hf & H)].
  - apply call_inv_inl in Hf as (err & Hf & ->).
    exists eid, err. split; [by left|done].
  - apply IH in H as (eid' & err & Hin & Hf' & ->).
    exists eid', err. split; [by right|done].
Qed.

Lemma main_mesh_inv cad mesh_pair X0 y0 st X y st' :
  main_mesh K cad mesh_pair X0 y0 st = (inr (X, y), st') ->
  exists eids Xm ym,
    mesh_rows K cad (fs st) mesh_pair eids Xm ym /\
    X = (X0 ++ Xm)%list /\ y = (y0 ++ ym)%list.
Proof.
  destruct mesh_pair as [node_csv elem_csv]. unfold main_mesh. intros H.
  apply bind_inv in H as [(? & _ & [=])|([] & s1 & [= <-] & H)].
  apply bind_inv in H as [(? & _ & [=])|(fs0 & s2 & [= <- <-] & H)].
  apply bind_inv in H as [(? & _ & [=])|(m0 & s3 & [Hload ->]%call_inv_inr & H)].
  apply bind_inv in H as [(? & _ & [=])|(nb & s4 & [Hnb ->]%call_inv_inr & H)].
  apply bind_inv in H as [(? & _ & [=])|(metrics & s5 & [Hmet ->]%call_inv_inr & H)].
  apply bind_inv in H as [(? & _ & [=])|(ie & s6 & [Hie ->]%call_inv_inr & H)].
  apply bind_inv in H as [(? & _ & [=])|(dist & s7 & [Hdist ->]%call_inv_inr & H)].
  apply bind_inv in H as [(? & _ & [=])|(ce & s8 & [Hce ->]%call_inv_inr & H)].
  apply main_elements_inv in H as (Xm & HF & -> & ->).
  simpl in *.
  exists (elements K (mesh_data m0)), Xm,
    (map (main_label K ie ce) (elements K (mesh_data m0))).
  split; [|done].
  exists m0, nb, metrics, ie, dist, ce. simpl. by split_and!.
Qed.

Lemma main_meshes_inv cad mesh_pairs : forall X0 y0 st X y st',
  main_meshes K cad mesh_pairs X0 y0 st = (inr (X, y), st') ->
  exists rows : list (list (ElementID K) * (list (FeatureVector K) * list Z)),
    Forall2 (fun mp r => mesh_rows K cad (fs st) mp r.1 r.2.1 r.2.2) mesh_pairs rows /\
    X = (X0 ++ concat (rows.*2.*1))%list /\
    y = (y0 ++ concat (rows.*2.*2))%list.
Proof.
  induction mesh_pairs as [|mp rest IH]; intros X0 y0 st X y st' H; simpl in H.
  - injection H as <- <- <-. exists []. split; [constructor|].
    by rewrite !app_nil_r.
  - apply bind_inv in H as [(? & _ & [=])|([X1 y1] & s1 & Hm & H)].
    pose proof (quiet_main_mesh _ _ _ _ _ _ _ Hm) as [Hfs _].
    apply main_mesh_inv in Hm as (eids & Xm & ym & Hrows & -> & ->).
    apply IH in H as (rows & HF & -> & ->). rewrite Hfs in HF.
    exists ((eids, (Xm, ym)) :: rows). split; [by constructor|].
    simpl. by rewrite <- !app_assoc.
Qed.

Lemma quiet_main_fit X_all y_all : quiet (main_fit K X_all y_all).
Proof. unfold main_fit. repeat quiet_step. Qed.

End TrainingFacts.

(** ** The two orchestrators *)

Section OrchestratorFacts.
Context (K : Collaborators).

Lemma main_unfold vehicle_id :
  main K vehicle_id =
    bind (main_dataset K vehicle_id) (fun D =>
      bind (main_fit K D.1 D.2) (fun model => main_save K vehicle_id model)).
Proof. reflexivity. Qed.

Lemma main_dataset_not_found vehicle_id (st : State K) :
  path_exists (fs st) (["data_2"] // vehicle_id) = false ->
  main_dataset K vehicle_id st =
    (inl (VehicleFolderNotFound (["data_2"] // vehicle_id)),
     mkState (fs st) (calls st) (stdout st ++ [Info_training_vehicle vehicle_id])%list).
Proof.
  intros H. unfold main_dataset, bind, print, get_fs, raise. simpl.
  by rewrite H.
Qed.


Lemma main_dataset_inv vehicle_id (st st' : State K) X y :
  let vehicle_root := ["data_2"] // vehicle_id in
  main_dataset K vehicle_id st = (inr (X, y), st') ->
  exists cad s1,
    path_exists (fs st) vehicle_root = true /\
    load_mesh K (fs st) (vehicle_root // "cad_NODE.csv")
      (vehicle_root // "cad_ELEMENT.csv") = inr cad /\
    find_first_meshes (fs st) vehicle_root <> [] /\
    fs s1 = fs st /\
    main_meshes K cad (find_first_meshes (fs st) vehicle_root) [] [] s1
      = (inr (X, y), st').
Proof.
  intros vehicle_root. unfold main_dataset. fold vehicle_root. intros H.
  apply bind_inv in H as [(? & _ & [=])|([] & s1 & [= <-] & H)].
  apply bind_inv in H as [(? & _ & [=])|(fs0 & s2 & [= <- <-] & H)].
  simpl in H.
  destruct (path_exists (fs st) vehicle_root) eqn:Hroot; simpl in H; [|done].
  apply bind_inv in H as [(? & _ & [=])|(cad & s3 & [Hcad ->]%call_inv_inr & H)].
  apply bind_inv in H as [(? & _ & [=])|([] & s4 & [= <-] & H)].
  apply bind_inv in H as [(? & _ & [=])|(fs1 & s5 & [= <- <-] & H)].
  apply bind_inv in H as [(? & _ & [=])|([] & s6 & [= <-] & H)].
  simpl in *.
  destruct (find_first_meshes (fs st) vehicle_root) as [|mp rest] eqn:Hfind;
    [done|].
  exists cad. eexists. split_and!; [done|done|done| |exact H]. done.
Qed.

Lemma main_save_inv vehicle_id model (st st' : State K) :
  main_save K vehicle_id model st = (inr tt, st') ->
  read_file (fs st') (["models"] // vehicle_id // "severity_model.pkl")
    = Some (joblib_dump K model).
Proof.
  unfold main_save, bind, record, get_fs, put_fs, print, raise. simpl.
  destruct (mkdir_parents_exist_ok (fs st) _) as [fs1|]; [|done]. simpl.
  destruct (write_file fs1 _ _) as [fs2|] eqn:Hw; [|done]. simpl.
  intros [= <-]. simpl. unfold read_file.
  by rewrite (write_file_lookup _ _ _ _ Hw).
Qed.

Lemma main_save_fail vehicle_id model (st st' : State K) e :
  main_save K vehicle_id model st = (inl e, st') ->
  read_file (fs st') (["models"] // vehicle_id // "severity_model.pkl")
    = read_file (fs st) (["models"] // vehicle_id // "severity_model.pkl").
Proof.
  unfold main_save, bind, record, get_fs, put_fs, print, raise. simpl.
  destruct (mkdir_parents_exist_ok (fs st) _) as [fs1|] eqn:Hmk; simpl.
  - destruct (write_file fs1 _ _) as [fs2|] eqn:Hw; [done|]. simpl.
    intros [= <- <-]. simpl. unfold read_file.
    rewrite (mkdir_each_lookup _ _ _ _ Hmk); [done|].
    simpl. rewrite !elem_of_cons, elem_of_nil. intros [[=]|[[=]|[]]].
  - by intros [= <- <-].
Qed.

Lemma main_fit_inv X_all y_all (st st' : State K) model :
  main_fit K X_all y_all st = (inr model, st') ->
  exists X, asarray_float32 K X_all = inr X /\
            fit K train_params X y_all = inr model.
Proof.
  unfold main_fit. intros H.
  apply bind_inv in H as [(? & _ & [=])|(X & s1 & [HX ->]%call_inv_inr & H)].
  apply bind_inv in H as [(? & _ & [=])|([] & s2 & [= <-] & H)].
  apply call_inv_inr in H as [Hfit _]. by exists X.
Qed.


Lemma evaluate_elements_main_elements eids mesh metrics ie ce X y :
  evaluate_elements K eids mesh metrics ie ce X y
    = main_elements K eids mesh metrics ie ce X y.
Proof.
  revert X y. induction eids as [|eid eids IH]; intros X y; simpl; [done|].
  f_equal.
Qed.

Lemma evaluate_not_found vehicle_id mesh_idx (st : State K) :
  path_exists (fs st) (["models"] // vehicle_id // "severity_model.pkl") = false ->
  evaluate K vehicle_id mesh_idx st =
    (inl (ModelNotFound (["models"] // vehicle_id // "severity_model.pkl")), st).
Proof.
  intros H. unfold evaluate, bind, get_fs, raise. simpl. by rewrite H.
Qed.

End OrchestratorFacts.

(** * The claims *)

(** C1.  The severity label is a total, deterministic function of the two
    tag sets of an element.  For every intrinsic tag set [it] and CAD tag set
    [ct] (empty ones included), in training and in evaluation alike, the label
    is HIGH (2) exactly when [it] contains BAD_ASPECT_RATIO or HIGH_SKEWNESS or
    [ct] contains CAD_DEVIATION_HIGH, whether or not BAD_TRANSITION is present;
    MEDIUM (1) exactly when none of these holds and [it] contains
    BAD_TRANSITION; LOW (0) exactly when none of the four tags is there; and
    it is always one of the three. *)
Theorem severity_label_policy (K : Collaborators)
    (ie ce : gmap (ElementID K) (list string)) (eid : ElementID K)
    (it ct : list string) :
  let label := main_label K (<[eid := it]> ie) (<[eid := ct]> ce) eid in
  (label = HIGH <-> high_trigger it ct) /\
  (label = MEDIUM <-> ~ high_trigger it ct /\ "BAD_TRANSITION" ∈ it) /\
  (label = LOW <-> ~ high_trigger it ct /\ "BAD_TRANSITION" ∉ it) /\
  (label = LOW \/ label = MEDIUM \/ label = HIGH) /\
  label = policy_label it ct /\
  evaluate_label K (<[eid := it]> ie) (<[eid := ct]> ce) eid = label /\
  main_label K (<[eid := []]> ie) (<[eid := []]> ce) eid = LOW.
Proof.
  intros label.
  assert (label = policy_label it ct) as Hl.
  { unfold label. by rewrite main_label_policy, !dict_get_insert. }
  assert (main_label K (<[eid := []]> ie) (<[eid := []]> ce) eid = LOW) as He.
  { rewrite main_label_policy, !dict_get_insert. unfold policy_label, high_trigger.
    repeat case_decide; try done.
    - destruct H as [H|[H|H]]; by apply elem_of_nil in H.
    - by apply elem_of_nil in H0. }
  assert (evaluate_label K (<[eid := it]> ie) (<[eid := ct]> ce) eid = label)
    as Hev by reflexivity.
  clearbody label. subst label.
  split_and!; try done; unfold policy_label, HIGH, MEDIUM, LOW;
    repeat case_decide; try tauto; split; try done; tauto.
Qed.

(** C2.  An element id that is missing from a tag dictionary is treated as
    having the empty tag set: the label is the one obtained with the id bound
    to the empty list, for the intrinsic dictionary and for the CAD dictionary,
    in training and in evaluation; with no entry in either dictionary the label
    is LOW (0).  The lookup itself never raises: whatever keys are missing,
    the element loop returns as soon as the feature assembler returns for
    every element, with one label per element. *)
Theorem missing_tags_are_empty (K : Collaborators)
    (ie ce : gmap (ElementID K) (list string)) (eid : ElementID K) :
  (ie !! eid = None ->
     main_label K ie ce eid = main_label K (<[eid := []]> ie) ce eid /\
     evaluate_label K ie ce eid = evaluate_label K (<[eid := []]> ie) ce eid) /\
  (ce !! eid = None ->
     main_label K ie ce eid = main_label K ie (<[eid := []]> ce) eid /\
     evaluate_label K ie ce eid = evaluate_label K ie (<[eid := []]> ce) eid) /\
  (ie !! eid = None -> ce !! eid = None ->
     main_label K ie ce eid = LOW /\ evaluate_label K ie ce eid = LOW) /\
  (forall eids mesh metrics X0 y0 st,
     Forall (fun e => exists f,
       build_feature_vector K e mesh metrics ie ce = inr f) eids ->
     exists Xm st',
       main_elements K eids mesh metrics ie ce X0 y0 st
         = (inr ((X0 ++ Xm)%list, (y0 ++ map (main_label K ie ce) eids)%list), st') /\
       evaluate_elements K eids mesh metrics ie ce X0 y0 st
         = (inr ((X0 ++ Xm)%list, (y0 ++ map (main_label K ie ce) eids)%list), st') /\
       length Xm = length eids).
Proof.
  split_and!.
  - intros H.
    assert (main_label K ie ce eid = main_label K (<[eid := []]> ie) ce eid) as Hm.
    { rewrite !main_label_policy.
      by rewrite dict_get_insert, (dict_get_missing K ie eid [] H). }
    split; exact Hm.
  - intros H.
    assert (main_label K ie ce eid = main_label K ie (<[eid := []]> ce) eid) as Hm.
    { rewrite !main_label_policy.
      by rewrite dict_get_insert, (dict_get_missing K ce eid [] H). }
    split; exact Hm.
  - intros Hi Hc.
    assert (main_label K ie ce eid = LOW) as Hm; [|split; exact Hm].
    rewrite main_label_policy.
    rewrite (dict_get_missing K ie eid [] Hi), (dict_get_missing K ce eid [] Hc).
    unfold policy_label, high_trigger. repeat case_decide; try done.
    + destruct H as [H|[H|H]]; by apply elem_of_nil in H.
    + by apply elem_of_nil in H0.
  - intros eids mesh metrics X0 y0 st Hall.
    assert (exists Xm st',
      main_elements K eids mesh metrics ie ce X0 y0 st
        = (inr ((X0 ++ Xm)%list, (y0 ++ map (main_label K ie ce) eids)%list), st') /\
      length Xm = length eids) as (Xm & st' & E & Hlen).
    { destruct (main_elements K eids mesh metrics ie ce X0 y0 st)
        as [[e|[X y]] st'] eqn:E.
      - apply main_elements_fail in E as (e' & err & Hin & Hf & _).
        rewrite Forall_forall in Hall. destruct (Hall _ Hin) as [f Hf'].
        congruence.
      - apply main_elements_inv in E as (Xm & HF & -> & ->).
        exists Xm, st'. split; [done|].
        symmetry. by eapply Forall2_length. }
    exists Xm, st'. split_and!; [exact E| |exact Hlen].
    by rewrite evaluate_elements_main_elements.
Qed.

Lemma missing_tags_are_empty_witness :
  toy_intrinsic !! 5 = None /\ toy_cad !! 5 = None /\
  main_label toy toy_intrinsic toy_cad 5 = LOW /\
  evaluate_label toy toy_intrinsic toy_cad 5 = LOW /\
  main_label toy toy_intrinsic toy_cad 4
    = main_label toy toy_intrinsic (<[4 := []]> toy_cad) 4.
Proof.
  split; [reflexivity|]. split; [reflexivity|].
  destruct (missing_tags_are_empty toy toy_intrinsic toy_cad 5) as (_ & _ & H & _).
  destruct (missing_tags_are_empty toy toy_intrinsic toy_cad 4) as (_ & H' & _).
  split; [apply H; reflexivity|].
  split; [apply H; reflexivity|].
  apply H'. reflexivity.
Defined.

(** C3.  When training has built its aggregate data set [(X, y)], there is
    one block of rows per discovered mesh pair, in the order of discovery:
    each block belongs to the mesh loaded from that pair and holds, for the
    ids [mesh.elements] yields and in that order, the feature vector of the
    i-th id at index i and the label of the same id at index i.  [X] and [y]
    are the blocks laid end to end, nothing reordered and nothing dropped, so
    both have as many rows as the meshes have elements in total. *)
Theorem dataset_rows_follow_elements (K : Collaborators) (vehicle_id : string)
    (st st' : State K) (X : list (FeatureVector K)) (y : list Z) :
  main_dataset K vehicle_id st = (inr (X, y), st') ->
  exists cad (rows : list (list (ElementID K) * (list (FeatureVector K) * list Z))),
    Forall2 (fun mesh_pair r => mesh_rows K cad (fs st) mesh_pair r.1 r.2.1 r.2.2)
      (find_first_meshes (fs st) (["data_2"] // vehicle_id)) rows /\
    Forall (fun r => length r.2.1 = length r.1 /\ length r.2.2 = length r.1) rows /\
    X = concat (rows.*2.*1) /\
    y = concat (rows.*2.*2) /\
    length X = sum_list (length <$> rows.*1) /\
    length y = sum_list (length <$> rows.*1).
Proof.
  intros H.
  apply main_dataset_inv in H as (cad & s1 & _ & _ & _ & Hfs & H).
  apply main_meshes_inv in H as (rows & HF & -> & ->). rewrite Hfs in HF.
  rewrite !app_nil_l.
  assert (Forall (fun r : list (ElementID K) * (list (FeatureVector K) * list Z) =>
            length r.2.1 = length r.1 /\ length r.2.2 = length r.1) rows) as Hlen.
  { clear -HF. induction HF as [|mp r mps rows Hr _ IH]; constructor; [|done].
    destruct Hr as (m0 & nb & metrics & ie & dist & ce & _ & _ & _ & _ & _ & _
                    & _ & HF2 & ->).
    split; [symmetry; by eapply Forall2_length|by rewrite length_map]. }
  exists cad, rows. split_and!; try done.
  - clear -Hlen. induction Hlen as [|r rows [H1 _] _ IH]; [done|].
    rewrite !fmap_cons. simpl. rewrite length_app. by rewrite H1, IH.
  - clear -Hlen. induction Hlen as [|r rows [_ H2] _ IH]; [done|].
    rewrite !fmap_cons. simpl. rewrite length_app. by rewrite H2, IH.
Qed.

Lemma dataset_rows_follow_elements_witness :
  (main_dataset toy "01_" (toy_state toy_fs)).1
    = inr ([10; 20; 50; 30; 40], [1; 2; 0; 2; 0]%Z) /\
  exists cad (rows : list (list nat * (list nat * list Z))),
    Forall2 (fun mesh_pair r => mesh_rows toy cad toy_fs mesh_pair r.1 r.2.1 r.2.2)
      (find_first_meshes toy_fs toy_root) rows /\
    Forall (fun r => length r.2.1 = length r.1 /\ length r.2.2 = length r.1) rows /\
    [10; 20; 50; 30; 40] = concat (rows.*2.*1) /\
    [1; 2; 0; 2; 0]%Z = concat (rows.*2.*2) /\
    5 = sum_list (length <$> rows.*1) /\
    5 = sum_list (length <$> rows.*1).
Proof.
  split; [vm_compute; reflexivity|].
  apply (dataset_rows_follow_elements toy "01_" (toy_state toy_fs)
           (main_dataset toy "01_" (toy_state toy_fs)).2).
  vm_compute. reflexivity.
Defined.



(** C5, as stated, fails: with first_mesh_a_NODE.csv and
    first_mesh_a_ELEMENT.csv both present under the vehicle root, discovery
    returns no pair, because the naming pattern only extracts a run of
    decimal digits. *)
Lemma discovery_skips_named_token :
  path_exists toy_fs_named (toy_root // "first_mesh_a_NODE.csv") = true /\
  path_exists toy_fs_named (toy_root // "first_mesh_a_ELEMENT.csv") = true /\
  find_first_meshes toy_fs_named toy_root = [] /\
  main toy "01_" (toy_state toy_fs_named)
    = (inl NoFirstMeshes,
       @mkState toy toy_fs_named
         [Call_load_mesh (toy_root // "cad_NODE.csv") (toy_root // "cad_ELEMENT.csv")]
         [Info_training_vehicle "01_"; Info_cad_loaded; Info_found 0]).
Proof. split_and!; vm_compute; reflexivity. Qed.

(** C5, amended.  For every file pair first_mesh_<idx>_NODE.csv /
    first_mesh_<idx>_ELEMENT.csv present under the vehicle root, where <idx>
    is a non-empty run of decimal digits, training discovery finds and
    includes that pair. *)
Theorem discovery_finds_numeric_pairs (B : Type) (disk : FS B)
    (vehicle_root : Path) (idx : string) :
  numeric_token idx ->
  path_exists disk (vehicle_root // ("first_mesh_" ++ idx ++ "_NODE.csv")) = true ->
  path_exists disk (vehicle_root // ("first_mesh_" ++ idx ++ "_ELEMENT.csv")) = true ->
  (vehicle_root // ("first_mesh_" ++ idx ++ "_NODE.csv"),
   vehicle_root // ("first_mesh_" ++ idx ++ "_ELEMENT.csv"))
    ∈ find_first_meshes disk vehicle_root.
Proof.
  intros Hidx Hnode Helem. apply elem_of_find_first_meshes.
  exists ("first_mesh_" ++ idx ++ "_NODE.csv"), idx.
  split_and!; try done.
  - apply node_glob_accepts.
  - by apply node_regex_extracts.
Qed.

Lemma discovery_finds_numeric_pairs_witness :
  (toy_root // "first_mesh_2_NODE.csv", toy_root // "first_mesh_2_ELEMENT.csv")
    ∈ find_first_meshes toy_fs toy_root.
Proof.
  apply (discovery_finds_numeric_pairs ToyBytes toy_fs toy_root "2").
  - split; [discriminate|reflexivity].
  - reflexivity.
  - reflexivity.
Defined.

(** C6.  When the data root of the vehicle does not exist, training fails at
    once with the "vehicle folder not found" error: the only thing done
    before is the first progress line; no CAD or mesh table is loaded, no
    other collaborator is called, and the file system (hence any model
    artifact) is left as it was. *)
Theorem training_vehicle_not_found (K : Collaborators) (vehicle_id : string)
    (st : State K) :
  path_exists (fs st) (["data_2"] // vehicle_id) = false ->
  main K vehicle_id st =
    (inl (VehicleFolderNotFound (["data_2"] // vehicle_id)),
     mkState (fs st) (calls st)
       (stdout st ++ [Info_training_vehicle vehicle_id])%list).
Proof.
  intros H. rewrite main_unfold. apply bind_inl.
  by apply main_dataset_not_found.
Qed.

Lemma training_vehicle_not_found_witness :
  main toy "02_" (toy_state toy_fs) =
    (inl (VehicleFolderNotFound ["data_2"; "02_"]),
     @mkState toy toy_fs [] [Info_training_vehicle "02_"]).
Proof.
  apply (training_vehicle_not_found toy "02_" (toy_state toy_fs)).
  reflexivity.
Defined.

(** C7.  When no model artifact is persisted for the vehicle, evaluation
    fails with the "model not found" error and nothing else happens: no CAD or
    mesh table is loaded, no classifier is fitted, nothing is printed and the
    file system is left as it was. *)
Theorem evaluation_model_not_found (K : Collaborators)
    (vehicle_id mesh_idx : string) (st : State K) :
  path_exists (fs st) (["models"] // vehicle_id // "severity_model.pkl") = false ->
  evaluate K vehicle_id mesh_idx st =
    (inl (ModelNotFound (["models"] // vehicle_id // "severity_model.pkl")), st).
Proof. apply evaluate_not_found. Qed.

Lemma evaluation_model_not_found_witness :
  evaluate toy "01_" "1" (toy_state toy_fs) =
    (inl (ModelNotFound ["models"; "01_"; "severity_model.pkl"]),
     toy_state toy_fs).
Proof.
  apply (evaluation_model_not_found toy "01_" "1" (toy_state toy_fs)).
  reflexivity.
Defined.

(** C8.  The label rule of the evaluation orchestrator is extensionally the
    label rule of the training orchestrator: on every pair of tag
    dictionaries and every element id both give the same label, and the two
    element loops built around them are the same computation. *)
Theorem evaluation_labels_as_training (K : Collaborators)
    (ie ce : gmap (ElementID K) (list string)) :
  (forall eid, evaluate_label K ie ce eid = main_label K ie ce eid) /\
  (forall eids mesh metrics X y st,
     evaluate_elements K eids mesh metrics ie ce X y st
       = main_elements K eids mesh metrics ie ce X y st).
Proof.
  split.
  - intros eid. apply evaluate_label_main_label.
  - intros eids mesh metrics X y st.
    by rewrite evaluate_elements_main_elements.
Qed.



(** C10.  However a training run ends, one of two things happened.  Either
    a step before persistence failed - building the data set (CAD or mesh
    loading, a collaborator, the feature assembler) or converting and fitting
    - and then the run failed with that error, the file system is exactly what
    it was and no call created the model directory or wrote the model file.
    Or the data set was built and the fit returned a model, nothing had been
    touched up to that point, and what remains of the run is the persistence
    step.  In every failing run the model file of the vehicle holds what it held
    before, or is still absent. *)
Theorem model_written_only_after_fit (K : Collaborators) (vehicle_id : string)
    (st st' : State K) (r : Exn K + unit) :
  main K vehicle_id st = (r, st') ->
  ((exists e,
      (main_dataset K vehicle_id st = (inl e, st') \/
       exists D s1, main_dataset K vehicle_id st = (inr D, s1) /\
                    main_fit K D.1 D.2 s1 = (inl e, st')) /\
      r = inl e /\ untouched st st') \/
   (exists D s1 model s2,
      main_dataset K vehicle_id st = (inr D, s1) /\
      main_fit K D.1 D.2 s1 = (inr model, s2) /\
      untouched st s2 /\
      main_save K vehicle_id model s2 = (r, st'))) /\
  (forall e, r = inl e ->
     read_file (fs st') (["models"] // vehicle_id // "severity_model.pkl")
       = read_file (fs st) (["models"] // vehicle_id // "severity_model.pkl")).
Proof.
  intros H. rewrite main_unfold in H.
  apply bind_inv in H as [(e & Hd & ->)|(D & s1 & Hd & H)].
  { pose proof (quiet_main_dataset K _ _ _ _ Hd) as Hu. split.
    - left. exists e. split_and!; auto.
    - intros _ _. destruct Hu as [-> _]. done. }
  pose proof (quiet_main_dataset K _ _ _ _ Hd) as Hu1.
  apply bind_inv in H as [(e & Hf & ->)|(model & s2 & Hf & H)].
  { pose proof (quiet_main_fit K _ _ _ _ _ Hf) as Hu2.
    pose proof (untouched_trans _ _ _ Hu1 Hu2) as Hu. split.
    - left. exists e. split_and!; eauto.
    - intros _ _. destruct Hu as [-> _]. done. }
  pose proof (quiet_main_fit K _ _ _ _ _ Hf) as Hu2.
  pose proof (untouched_trans _ _ _ Hu1 Hu2) as Hu. split.
  - right. by exists D, s1, model, s2.
  - intros e ->. apply main_save_fail in H. rewrite H.
    destruct Hu as [-> _]. done.
Qed.

Lemma model_written_only_after_fit_witness :
  (main toy "01_" (toy_state toy_fs_broken)).1
    = inl (@Raised toy "no features") /\
  fs (main toy "01_" (toy_state toy_fs_broken)).2 = toy_fs_broken /\
  read_file (fs (main toy "01_" (toy_state toy_fs_broken)).2)
      ["models"; "01_"; "severity_model.pkl"]
    = Some (Pkl (mkRF 200 20 1 42) [10] [1%Z]).
Proof.
  destruct (model_written_only_after_fit toy "01_" (toy_state toy_fs_broken)
              (main toy "01_" (toy_state toy_fs_broken)).2
              (inl (@Raised toy "no features")))
    as [[(e & _ & _ & Hu)|(D & s1 & model & s2 & Hd & _)] Hread].
  - vm_compute. reflexivity.
  - split; [vm_compute; reflexivity|]. split; [exact (proj1 Hu)|].
    etrans; [exact (Hread _ eq_refl)|]. vm_compute. reflexivity.
  - vm_compute in Hd. discriminate Hd.
Defined.

(** * Further properties *)

(** ** What the naming pattern accepts *)






Lemma node_regex_extracts_loose idx c tail :
  numeric_token idx ->
  Ascii.eqb c newline = false ->
  re_search node_regex
    ("first_mesh_" ++ idx ++ "_NODE" ++ String c ("csv" ++ tail)) = Some idx.
Proof.
  intros [Hne Hdig] Hc.
  set (name := "first_mesh_" ++ idx ++ "_NODE" ++ String c ("csv" ++ tail)).
  assert (re_match node_regex name EmptyString = Some idx) as Hm.
  { unfold node_regex, name. rewrite re_match_lits.
    change (plus_loop Digit
              (fun g' s' => re_match (lits "_NODE" ++ [One Dot] ++ lits "csv")%list s' g')
              EmptyString (idx ++ "_NODE" ++ String c ("csv" ++ tail)) = Some idx).
    apply plus_loop_run; try done.
    rewrite string_app_nil, re_match_lits.
    change (match atom_ok Dot c with
            | true => re_match (lits "csv") ("csv" ++ tail) idx
            | false => None
            end = Some idx).
    assert (atom_ok Dot c = true) as -> by (simpl; by rewrite Hc).
    cbv beta iota.
    rewrite <- (app_nil_r (lits "csv")). by rewrite re_match_lits. }
  unfold name in *.
  change ("first_mesh_" ++ idx ++ "_NODE" ++ String c ("csv" ++ tail))
    with (String "f" ("irst_mesh_" ++ idx ++ "_NODE" ++ String c ("csv" ++ tail))) in *.
  unfold re_search; fold re_search. by rewrite Hm.
Qed.

(** ** Discovery *)





(** X3.  The index is read at the first place where the pattern matches and
    what follows is not looked at: a node file named
    first_mesh_<idx>_NODE?csv<tail>, with <idx> numeric and ? any character
    but a newline, is paired with first_mesh_<idx>_ELEMENT.csv as soon as the
    whole name passes the glob and both files exist. *)
Theorem discovery_reads_first_match (B : Type) (disk : FS B)
    (vehicle_root : Path) (idx : string) (c : ascii) (tail : string) :
  let name := "first_mesh_" ++ idx ++ "_NODE" ++ String c ("csv" ++ tail) in
  numeric_token idx ->
  Ascii.eqb c newline = false ->
  glob_match node_glob name = true ->
  path_exists disk (vehicle_root // name) = true ->
  path_exists disk (vehicle_root // ("first_mesh_" ++ idx ++ "_ELEMENT.csv")) = true ->
  (vehicle_root // name, vehicle_root // ("first_mesh_" ++ idx ++ "_ELEMENT.csv"))
    ∈ find_first_meshes disk vehicle_root.
Proof.
  intros name Hidx Hc Hglob Hnode Helem. apply elem_of_find_first_meshes.
  exists name, idx. split_and!; try done.
  by apply node_regex_extracts_loose.
Qed.

Lemma discovery_reads_first_match_witness :
  find_first_meshes toy_fs_stray toy_root =
    [ (toy_root // "first_mesh_3_NODE.csv_old_NODE.csv",
       toy_root // "first_mesh_3_ELEMENT.csv") ] /\
  (toy_root // "first_mesh_3_NODE.csv_old_NODE.csv",
   toy_root // "first_mesh_3_ELEMENT.csv")
    ∈ find_first_meshes toy_fs_stray toy_root.
Proof.
  split; [vm_compute; reflexivity|].
  apply (discovery_reads_first_match ToyBytes toy_fs_stray toy_root
           "3" "." "_old_NODE.csv").
  - split; [discriminate|reflexivity].
  - reflexivity.
  - reflexivity.
  - reflexivity.
  - reflexivity.
Defined.

Lemma found_pair_fst {B} (disk : FS B) root n p :
  found_pair disk root n = Some p -> p.1 = n.
Proof.
  unfold found_pair. destruct (re_search node_regex (path_name n)); [|done].
  destruct (path_exists disk _); [|done]. by intros [= <-].
Qed.

Lemma found_pairs_sublist {B} (disk : FS B) root l :
  (omap (found_pair disk root) l).*1 `sublist_of` l.
Proof.
  induction l as [|n l IH]; csimpl; [constructor|].
  destruct (found_pair disk root n) as [p|] eqn:E; csimpl.
  - rewrite (found_pair_fst _ _ _ _ E). by constructor.
  - by constructor.
Qed.

(** X4.  When the directory lists every path once, no node file occurs in
    two discovered pairs: each node table is processed at most once per
    run. *)
Theorem discovery_no_duplicate_nodes (B : Type) (disk : FS B)
    (vehicle_root : Path) :
  NoDup disk.*1 ->
  NoDup (find_first_meshes disk vehicle_root).*1 /\
  NoDup (find_first_meshes disk vehicle_root).
Proof.
  intros Hnd.
  assert (NoDup (find_first_meshes disk vehicle_root).*1) as H.
  { unfold find_first_meshes.
    rewrite sorted_Permutation, find_loop_omap, app_nil_l.
    eapply sublist_NoDup; [|apply found_pairs_sublist].
    unfold path_glob. by apply NoDup_filter. }
  split; [done|]. by apply NoDup_fmap_1 in H.
Qed.

Lemma discovery_no_duplicate_nodes_witness :
  NoDup (find_first_meshes toy_fs toy_root).*1 /\
  NoDup (find_first_meshes toy_fs toy_root).
Proof.
  apply (discovery_no_duplicate_nodes ToyBytes toy_fs toy_root).
  vm_compute. repeat (constructor; [rewrite ?elem_of_cons, elem_of_nil;
    intros H; repeat (destruct H as [H|H]; [discriminate H|]); exact H|]).
  constructor.
Defined.

(** ** More on labels *)

(** X5.  Adding tags never lowers the severity: if every intrinsic tag and
    every CAD tag of an element is still there, the label is at least what it
    was. *)
Theorem more_tags_never_lower_label (K : Collaborators)
    (ie ce ie' ce' : gmap (ElementID K) (list string)) (eid : ElementID K) :
  dict_get ie eid [] ⊆ dict_get ie' eid [] ->
  dict_get ce eid [] ⊆ dict_get ce' eid [] ->
  (main_label K ie ce eid <= main_label K ie' ce' eid)%Z /\
  (evaluate_label K ie ce eid <= evaluate_label K ie' ce' eid)%Z.
Proof.
  intros Hi Hc.
  assert (main_label K ie ce eid <= main_label K ie' ce' eid)%Z as H;
    [|split; exact H].
  rewrite !main_label_policy. unfold policy_label, high_trigger, HIGH, MEDIUM, LOW.
  repeat case_decide; try lia; exfalso.
  - destruct H as [H|[H|H]]; eauto.
  - destruct H as [H|[H|H]]; eauto.
  - eauto.
Qed.

Lemma more_tags_never_lower_label_witness :
  Z.le (main_label toy toy_intrinsic toy_cad 1)
       (main_label toy (<[1 := ["BAD_TRANSITION"; "HIGH_SKEWNESS"]]> toy_intrinsic)
          toy_cad 1).
Proof.
  apply (more_tags_never_lower_label toy toy_intrinsic toy_cad
           (<[1 := ["BAD_TRANSITION"; "HIGH_SKEWNESS"]]> toy_intrinsic) toy_cad 1).
  - change (["BAD_TRANSITION"] ⊆ ["BAD_TRANSITION"; "HIGH_SKEWNESS"]).
    intros t Ht. apply elem_of_cons in Ht as [->|Ht]; [left|].
    by apply elem_of_nil in Ht.
  - change (@nil string ⊆ []). done.
Defined.

(** X6.  The label looks at four tags only: BAD_ASPECT_RATIO, HIGH_SKEWNESS
    and BAD_TRANSITION among the intrinsic tags and CAD_DEVIATION_HIGH among
    the CAD tags.  Any other tag, the order of the tags, repetitions, and a
    known tag filed in the other dictionary leave it unchanged. *)
Theorem label_reads_four_tags (K : Collaborators)
    (ie ce ie' ce' : gmap (ElementID K) (list string)) (eid : ElementID K) :
  (forall t, t ∈ ["BAD_ASPECT_RATIO"; "HIGH_SKEWNESS"; "BAD_TRANSITION"] ->
     t ∈ dict_get ie eid [] <-> t ∈ dict_get ie' eid []) ->
  ("CAD_DEVIATION_HIGH" ∈ dict_get ce eid [] <->
   "CAD_DEVIATION_HIGH" ∈ dict_get ce' eid []) ->
  main_label K ie ce eid = main_label K ie' ce' eid /\
  evaluate_label K ie ce eid = evaluate_label K ie' ce' eid.
Proof.
  intros Hi Hc.
  assert (main_label K ie ce eid = main_label K ie' ce' eid) as H;
    [|split; exact H].
  pose proof (Hi "BAD_ASPECT_RATIO" ltac:(repeat constructor)) as H1.
  pose proof (Hi "HIGH_SKEWNESS" ltac:(repeat constructor)) as H2.
  pose proof (Hi "BAD_TRANSITION" ltac:(repeat constructor)) as H3.
  rewrite !main_label_policy. unfold policy_label, high_trigger.
  repeat case_decide; try done; tauto.
Qed.

Lemma label_reads_four_tags_witness :
  main_label toy toy_intrinsic toy_cad 4 = main_label toy ∅ ∅ 4.
Proof.
  apply (label_reads_four_tags toy toy_intrinsic toy_cad ∅ ∅ 4).
  - change (@dict_get toy _ toy_intrinsic 4 []) with ["SOME_OTHER_TAG"].
    change (@dict_get toy _ ∅ 4 []) with (@nil string).
    intros t Ht.
    repeat (apply elem_of_cons in Ht as [->|Ht];
      [split; intros H;
        [apply elem_of_cons in H as [H|H];
          [discriminate H|by apply elem_of_nil in H]
        |by apply elem_of_nil in H]|]).
    by apply elem_of_nil in Ht.
  - change (@dict_get toy _ toy_cad 4 []) with (@nil string).
    change (@dict_get toy _ ∅ 4 []) with (@nil string).
    done.
Defined.

(** ** Training, step by step *)

Section TrainingRuns.
Context (K : Collaborators).
Implicit Types (ie ce : gmap (ElementID K) (list string)).

Lemma state_eta (st : State K) :
  mkState (fs st) (calls st) (stdout st) = st.
Proof. by destruct st. Qed.

Lemma main_elements_ok mesh metrics ie ce eids Xm :
  Forall2 (fun eid f => build_feature_vector K eid mesh metrics ie ce = inr f)
    eids Xm ->
  forall X0 y0 st,
    main_elements K eids mesh metrics ie ce X0 y0 st =
      (inr ((X0 ++ Xm)%list, (y0 ++ map (main_label K ie ce) eids)%list),
       mkState (fs st) (calls st ++ map Call_build_feature_vector eids)%list
         (stdout st)).
Proof.
  induction 1 as [|eid f eids Xm Hf _ IH]; intros X0 y0 st; simpl.
  - by rewrite !app_nil_r, state_eta.
  - rewrite Hf. erewrite bind_inr; [|apply call_ok].
    rewrite IH. simpl. by rewrite <- !app_assoc.
Qed.

Lemma main_elements_stops mesh metrics ie ce pre Xm eid err post :
  Forall2 (fun e f => build_feature_vector K e mesh metrics ie ce = inr f)
    pre Xm ->
  build_feature_vector K eid mesh metrics ie ce = inl err ->
  forall X0 y0 st,
    main_elements K (pre ++ eid :: post) mesh metrics ie ce X0 y0 st =
      (inl (Raised err),
       mkState (fs st)
         (calls st ++ map Call_build_feature_vector (pre ++ [eid]))%list
         (stdout st)).
Proof.
  intros HF Herr.
  induction HF as [|e f pre Xm Hf _ IH]; intros X0 y0 st; simpl.
  - rewrite Herr. reflexivity.
  - rewrite Hf. erewrite bind_inr; [|apply call_ok].
    rewrite IH. simpl. by rewrite <- !app_assoc.
Qed.

Lemma main_mesh_ok cad mesh_pair eids Xm ym X0 y0 (st : State K) :
  mesh_rows K cad (fs st) mesh_pair eids Xm ym ->
  main_mesh K cad mesh_pair X0 y0 st =
    (inr ((X0 ++ Xm)%list, (y0 ++ ym)%list),
     mkState (fs st) (calls st ++ mesh_calls mesh_pair eids)%list
       (stdout st ++ [Info_processing (path_name mesh_pair.1)])%list).
Proof.
  destruct mesh_pair as [node_csv elem_csv].
  intros (m0 & nb & metrics & ie & dist & ce & Hload & Hnb & Hmet & Hie & Hdist
          & Hce & -> & HF & ->).
  simpl in *. unfold main_mesh, bind, print, get_fs, call, record, lift, ret.
  simpl. rewrite Hload. simpl. rewrite Hnb. simpl. rewrite Hmet. simpl.
  rewrite Hie. simpl. rewrite Hdist. simpl. rewrite Hce. simpl.
  rewrite (main_elements_ok _ _ _ _ _ _ HF). simpl.
  unfold mesh_calls. simpl. by rewrite <- !app_assoc.
Qed.

Lemma main_meshes_ok cad mesh_pairs
    (rows : list (list (ElementID K) * (list (FeatureVector K) * list Z)))
    (disk : FS (FileContent K)) :
  Forall2 (fun mp r => mesh_rows K cad disk mp r.1 r.2.1 r.2.2) mesh_pairs rows ->
  forall X0 y0 (st : State K),
    fs st = disk ->
    main_meshes K cad mesh_pairs X0 y0 st =
      (inr ((X0 ++ concat (rows.*2.*1))%list, (y0 ++ concat (rows.*2.*2))%list),
       mkState disk
         (calls st ++ concat (zip_with mesh_calls mesh_pairs (rows.*1)))%list
         (stdout st
            ++ map (fun mp => Info_processing (path_name mp.1)) mesh_pairs)%list).
Proof.
  induction 1 as [|mp r mps rows Hr _ IH]; intros X0 y0 st Hfs; simpl.
  - rewrite !app_nil_r, <- Hfs. by rewrite state_eta.
  - rewrite <- Hfs in Hr. erewrite bind_inr; [|by apply main_mesh_ok].
    rewrite IH by done. simpl. by rewrite <- !app_assoc.
Qed.

End TrainingRuns.

Section FileSystemFrame.
Context {B : Type}.



End FileSystemFrame.

Section TrainingOutcomes.
Context (K : Collaborators).

Lemma fails_with_ret {A} P (a : A) : fails_with (K := K) P (ret a).
Proof. by intros st e st' [=]. Qed.

Lemma fails_with_bind {A C} P (m : M K A) (k : A -> M K C) :
  fails_with P m -> (forall a, fails_with P (k a)) -> fails_with P (bind m k).
Proof.
  intros Hm Hk st e st' H.
  apply bind_inv in H as [(e' & H & [= <-])|(a & s1 & _ & H)].
  - by apply (Hm st e st').
  - by apply (Hk a s1 e st').
Qed.

Lemma fails_with_call {A} (P : Exn K -> Prop) c (r : ExternalError K + A) :
  (forall err, P (Raised err)) -> fails_with P (call c r).
Proof.
  intros HP st e st' H. apply call_inv_inl in H as (err & _ & ->). apply HP.
Qed.

Lemma fails_with_lift {A} (P : Exn K -> Prop) (r : ExternalError K + A) :
  (forall err, P (Raised err)) -> fails_with P (lift r).
Proof. intros HP st e st'. destruct r; simpl; intros [=]; subst; apply HP. Qed.

Lemma fails_with_print (P : Exn K -> Prop) m : fails_with P (print m).
Proof. by intros st e st' [=]. Qed.

Lemma fails_with_get_fs (P : Exn K -> Prop) : fails_with P get_fs.
Proof. by intros st e st' [=]. Qed.

Lemma fails_with_record (P : Exn K -> Prop) c : fails_with P (record c).
Proof. by intros st e st' [=]. Qed.

Lemma is_raised_Raised (err : ExternalError K) : is_raised (Raised err).
Proof. by exists err. Qed.

Lemma fails_with_main_elements eids mesh metrics ie ce X y :
  fails_with is_raised (main_elements K eids mesh metrics ie ce X y).
Proof.
  intros st e st' H.
  apply main_elements_fail in H as (eid & err & _ & _ & ->). by exists err.
Qed.

Lemma fails_with_main_mesh cad mp X y :
  fails_with is_raised (main_mesh K cad mp X y).
Proof.
  destruct mp as [node_csv elem_csv]. unfold main_mesh.
  repeat first
    [ apply fails_with_main_elements
    | apply fails_with_print
    | apply fails_with_get_fs
    | apply fails_with_call; apply is_raised_Raised
    | apply fails_with_bind; [|intros ?] ].
Qed.

Lemma fails_with_main_meshes cad mps : forall X y,
  fails_with is_raised (main_meshes K cad mps X y).
Proof.
  induction mps as [|mp mps IH]; intros X y; simpl.
  - apply fails_with_ret.
  - apply fails_with_bind; [apply fails_with_main_mesh|]. intros a. apply IH.
Qed.

Lemma fails_with_main_fit X y : fails_with is_raised (main_fit K X y).
Proof.
  unfold main_fit.
  repeat first
    [ apply fails_with_print
    | apply fails_with_call; apply is_raised_Raised
    | apply fails_with_bind; [|intros ?] ].
Qed.

Lemma fails_with_main_save vehicle_id model :
  fails_with (fun e => e = OSError (["models"] // vehicle_id) \/
                       e = OSError (["models"] // vehicle_id // "severity_model.pkl"))
    (main_save K vehicle_id model).
Proof.
  intros st e st'.
  unfold main_save, bind, record, get_fs, put_fs, print, raise. simpl.
  destruct (mkdir_parents_exist_ok (fs st) _) as [fs1|]; simpl.
  - destruct (write_file fs1 _ _) as [fs2|]; simpl; [done|].
    intros [= <- _]. by right.
  - intros [= <- _]. by left.
Qed.

(** [main_dataset], case by case. *)
Lemma main_dataset_cases vehicle_id (st : State K) :
  let vehicle_root := ["data_2"] // vehicle_id in
  let cad_call := Call_load_mesh (vehicle_root // "cad_NODE.csv")
                                 (vehicle_root // "cad_ELEMENT.csv") in
  main_dataset K vehicle_id st =
    if path_exists (fs st) vehicle_root then
      match load_mesh K (fs st) (vehicle_root // "cad_NODE.csv")
              (vehicle_root // "cad_ELEMENT.csv") with
      | inl err =>
          (inl (Raised err),
           mkState (fs st) (calls st ++ [cad_call])%list
             (stdout st ++ [Info_training_vehicle vehicle_id])%list)
      | inr cad =>
          match find_first_meshes (fs st) vehicle_root with
          | [] =>
              (inl NoFirstMeshes,
               mkState (fs st) (calls st ++ [cad_call])%list
                 (stdout st ++ [Info_training_vehicle vehicle_id;
                                Info_cad_loaded; Info_found 0])%list)
          | mesh_pairs =>
              main_meshes K cad mesh_pairs [] []
                (mkState (fs st) (calls st ++ [cad_call])%list
                   (stdout st ++ [Info_training_vehicle vehicle_id;
                                  Info_cad_loaded;
                                  Info_found (length mesh_pairs)])%list)
          end
      end
    else
      (inl (VehicleFolderNotFound vehicle_root),
       mkState (fs st) (calls st)
         (stdout st ++ [Info_training_vehicle vehicle_id])%list).
Proof.
  intros vehicle_root cad_call.
  unfold main_dataset, bind, print, get_fs, raise, call, record, lift, ret.
  simpl. fold vehicle_root.
  destruct (path_exists (fs st) vehicle_root); simpl; [|done].
  destruct (load_mesh K (fs st) _ _) as [err|cad]; simpl; [done|].
  destruct (find_first_meshes (fs st) vehicle_root) as [|mp mps]; simpl.
  - by rewrite <- !app_assoc.
  - by rewrite <- !app_assoc.
Qed.


Lemma main_dataset_ok vehicle_id (st : State K) cad
    (rows : list (list (ElementID K) * (list (FeatureVector K) * list Z))) :
  path_exists (fs st) (["data_2"] // vehicle_id) = true ->
  load_mesh K (fs st) (["data_2"] // vehicle_id // "cad_NODE.csv")
    (["data_2"] // vehicle_id // "cad_ELEMENT.csv") = inr cad ->
  find_first_meshes (fs st) (["data_2"] // vehicle_id) <> [] ->
  Forall2 (fun mp r => mesh_rows K cad (fs st) mp r.1 r.2.1 r.2.2)
    (find_first_meshes (fs st) (["data_2"] // vehicle_id)) rows ->
  main_dataset K vehicle_id st =
    (inr (concat (rows.*2.*1), concat (rows.*2.*2)),
     mkState (fs st)
       (calls st
          ++ [Call_load_mesh (["data_2"] // vehicle_id // "cad_NODE.csv")
                             (["data_2"] // vehicle_id // "cad_ELEMENT.csv")]
          ++ concat (zip_with mesh_calls
                       (find_first_meshes (fs st) (["data_2"] // vehicle_id))
                       (rows.*1)))%list
       (stdout st
          ++ [Info_training_vehicle vehicle_id; Info_cad_loaded;
              Info_found (length (find_first_meshes (fs st)
                                    (["data_2"] // vehicle_id)))]
          ++ map (fun mp => Info_processing (path_name mp.1))
               (find_first_meshes (fs st) (["data_2"] // vehicle_id)))%list).
Proof.
  intros Hroot Hcad Hne Hrows.
  rewrite main_dataset_cases. cbv zeta. rewrite Hroot, Hcad.
  destruct (find_first_meshes (fs st) (["data_2"] // vehicle_id))
    as [|mp mps]; [done|].
  rewrite (main_meshes_ok K cad (mp :: mps) rows (fs st) Hrows) by done.
  cbn [fs calls stdout]. by rewrite <- !app_assoc.
Qed.

End TrainingOutcomes.

(** X7.  The element loop stops at the first element for which the feature
    assembler raises: that error is the outcome, the assembler has been called
    for the elements up to and including that one and for no later one, and
    the rows collected so far are not returned.  The same holds for the loop
    of the evaluation orchestrator. *)
Theorem feature_failure_stops_the_loop (K : Collaborators)
    (mesh : Mesh (MeshData K) (NeighborMap K)) (metrics : MetricsTable K)
    (ie ce : gmap (ElementID K) (list string))
    (pre : list (ElementID K)) (Xm : list (FeatureVector K))
    (eid : ElementID K) (err : ExternalError K) (post : list (ElementID K))
    (X0 : list (FeatureVector K)) (y0 : list Z) (st : State K) :
  Forall2 (fun e f => build_feature_vector K e mesh metrics ie ce = inr f)
    pre Xm ->
  build_feature_vector K eid mesh metrics ie ce = inl err ->
  main_elements K (pre ++ eid :: post) mesh metrics ie ce X0 y0 st =
    (inl (Raised err),
     mkState (fs st)
       (calls st ++ map Call_build_feature_vector (pre ++ [eid]))%list
       (stdout st)) /\
  evaluate_elements K (pre ++ eid :: post) mesh metrics ie ce X0 y0 st =
    (inl (Raised err),
     mkState (fs st)
       (calls st ++ map Call_build_feature_vector (pre ++ [eid]))%list
       (stdout st)).
Proof.
  intros HF Herr.
  assert (main_elements K (pre ++ eid :: post) mesh metrics ie ce X0 y0 st =
    (inl (Raised err),
     mkState (fs st)
       (calls st ++ map Call_build_feature_vector (pre ++ [eid]))%list
       (stdout st))) as H by by apply (main_elements_stops K _ _ _ _ _ Xm).
  split; [exact H|]. by rewrite evaluate_elements_main_elements.
Qed.

Lemma feature_failure_stops_the_loop_witness :
  main_elements toy [1; 99; 2] (mkMesh [1; 99; 2] (Some tt)) tt
      toy_intrinsic toy_cad [] [] (toy_state toy_fs) =
    (inl (@Raised toy "no features"),
     @mkState toy toy_fs
       [@Call_build_feature_vector toy 1; @Call_build_feature_vector toy 99] []).
Proof.
  apply (feature_failure_stops_the_loop toy (mkMesh [1; 99; 2] (Some tt)) tt
           toy_intrinsic toy_cad [1] [10] 99 "no features" [2] [] []
           (toy_state toy_fs)).
  - repeat constructor.
  - reflexivity.
Defined.



(** X9.  The "no first meshes" guard counts mesh pairs, not rows: when at
    least one pair is discovered and every discovered mesh has no element,
    the data set is built with no row at all and the run goes on to the
    conversion and the fit with that empty data set. *)
Theorem empty_meshes_pass_the_guard (K : Collaborators) (vehicle_id : string)
    (st : State K) (cad : Mesh (MeshData K) (NeighborMap K))
    (rows : list (list (ElementID K) * (list (FeatureVector K) * list Z))) :
  let vehicle_root := ["data_2"] // vehicle_id in
  path_exists (fs st) vehicle_root = true ->
  load_mesh K (fs st) (vehicle_root // "cad_NODE.csv")
    (vehicle_root // "cad_ELEMENT.csv") = inr cad ->
  find_first_meshes (fs st) vehicle_root <> [] ->
  Forall2 (fun mp r => mesh_rows K cad (fs st) mp r.1 r.2.1 r.2.2)
    (find_first_meshes (fs st) vehicle_root) rows ->
  Forall (fun r => r.1 = []) rows ->
  exists s1,
    main_dataset K vehicle_id st = (inr ([], []), s1) /\
    main K vehicle_id st
      = bind (main_fit K [] []) (fun model => main_save K vehicle_id model) s1 /\
    (main K vehicle_id st).1 <> inl NoFirstMeshes.
Proof.
  intros vehicle_root Hroot Hcad Hne Hrows Hempty.
  assert (concat (rows.*2.*1) = [] /\ concat (rows.*2.*2) = []) as [EX Ey].
  { clear Hne. induction Hrows as [|mp r mps rows Hr _ IH]; [done|].
    apply Forall_cons in Hempty as [Hr1 Hempty].
    destruct (IH Hempty) as [IH1 IH2]. rewrite !fmap_cons. simpl.
    rewrite IH1, IH2, !app_nil_r.
    destruct Hr as (m0 & nb & metrics & ie & dist & ce & _ & _ & _ & _ & _ & _
                    & He & HF & Hy).
    rewrite Hr1 in HF, Hy. apply Forall2_nil_inv_l in HF. by rewrite HF, Hy. }
  pose proof (main_dataset_ok K vehicle_id st cad rows Hroot Hcad Hne Hrows) as Hd.
  rewrite EX, Ey in Hd.
  eexists. split; [exact Hd|].
  assert (main K vehicle_id st
      = bind (main_fit K [] []) (fun model => main_save K vehicle_id model) _)
    as Hm by (rewrite main_unfold; by rewrite (bind_inr _ _ _ _ _ Hd)).
  split; [exact Hm|].
  rewrite Hm.
  match goal with
  | |- (?m ?s).1 <> _ => destruct (m s) as [[e|[]] s2] eqn:E; [|done]
  end.
  simpl. intros [= ->].
  apply bind_inv in E as [(e & E & [= <-])|(model & s3 & _ & E)].
  - apply fails_with_main_fit in E as [err [=]].
  - apply fails_with_main_save in E as [[=]|[=]].
Qed.

Lemma empty_meshes_pass_the_guard_witness :
  exists s1,
    main_dataset toy "01_" (toy_state toy_fs_empty_mesh) = (inr ([], []), s1) /\
    main toy "01_" (toy_state toy_fs_empty_mesh)
      = bind (main_fit toy [] []) (fun model => main_save toy "01_" model) s1 /\
    (main toy "01_" (toy_state toy_fs_empty_mesh)).1 <> inl NoFirstMeshes.
Proof.
  apply (empty_meshes_pass_the_guard toy "01_" (toy_state toy_fs_empty_mesh)
           (mkMesh [1] None) [ ([], ([], [])) ]).
  - reflexivity.
  - reflexivity.
  - vm_compute. discriminate.
  - change (Forall2
      (fun mp r => mesh_rows toy (mkMesh [1] None) toy_fs_empty_mesh mp r.1 r.2.1 r.2.2)
      (find_first_meshes toy_fs_empty_mesh toy_root) [ ([], ([], [])) ]).
    assert (find_first_meshes toy_fs_empty_mesh toy_root =
      [ (toy_root // "first_mesh_1_NODE.csv",
         toy_root // "first_mesh_1_ELEMENT.csv") ]) as -> by (vm_compute; reflexivity).
    constructor; [|constructor].
    exists (mkMesh [] None), tt, tt, toy_intrinsic, tt, toy_cad.
    split_and!; try reflexivity. constructor.
  - by repeat constructor.
Defined.

(** X10.  What each failure of a training run means.  The run fails with
    "vehicle folder not found" exactly when the data root is absent; with "no
    first meshes" exactly when the root exists, the CAD mesh has loaded and
    discovery is empty - so unreadable CAD tables are reported as the loader's
    own error even in a directory without meshes; an operating-system error
    can only concern the model directory or the model file; every other
    failure is an error raised by a collaborator; "model not found" is never
    raised. *)
Theorem training_error_causes (K : Collaborators) (vehicle_id : string)
    (st st' : State K) (r : Exn K + unit) :
  let vehicle_root := ["data_2"] // vehicle_id in
  let out_dir := ["models"] // vehicle_id in
  let model_path := out_dir // "severity_model.pkl" in
  main K vehicle_id st = (r, st') ->
  (r = inl (VehicleFolderNotFound vehicle_root) <->
     path_exists (fs st) vehicle_root = false) /\
  (r = inl NoFirstMeshes <->
     path_exists (fs st) vehicle_root = true /\
     (exists cad, load_mesh K (fs st) (vehicle_root // "cad_NODE.csv")
                    (vehicle_root // "cad_ELEMENT.csv") = inr cad) /\
     find_first_meshes (fs st) vehicle_root = []) /\
  (forall err,
     path_exists (fs st) vehicle_root = true ->
     load_mesh K (fs st) (vehicle_root // "cad_NODE.csv")
       (vehicle_root // "cad_ELEMENT.csv") = inl err ->
     r = inl (Raised err)) /\
  (forall e, r = inl e ->
     e = VehicleFolderNotFound vehicle_root \/ e = NoFirstMeshes \/
     e = OSError out_dir \/ e = OSError model_path \/ is_raised e).
Proof.
  intros vehicle_root out_dir model_path H.
  rewrite main_unfold in H.
  pose proof (main_dataset_cases K vehicle_id st) as Hd. cbv zeta in Hd.
  fold vehicle_root in Hd.
  destruct (path_exists (fs st) vehicle_root) eqn:Hroot.
  2:{ rewrite (bind_inl _ _ _ _ _ Hd) in H. injection H as <- <-.
      split_and!.
      - done.
      - split; [done|]. by intros (? & _).
      - done.
      - intros e [= <-]. by left. }
  destruct (load_mesh K (fs st) _ _) as [err|cad] eqn:Hcad.
  { rewrite (bind_inl _ _ _ _ _ Hd) in H. injection H as <- <-.
    split_and!.
    - done.
    - split; [done|]. by intros (_ & (? & ?) & _).
    - by intros err' _ [= ->].
    - intros e [= <-]. do 4 right. by exists err. }
  destruct (find_first_meshes (fs st) vehicle_root) as [|mp mps] eqn:Hfind.
  { rewrite (bind_inl _ _ _ _ _ Hd) in H. injection H as <- <-.
    split_and!.
    - done.
    - split; [|done]. intros _. split_and!; eauto.
    - done.
    - intros e [= <-]. right. by left. }
  assert (forall e, r = inl e ->
            e = OSError out_dir \/ e = OSError model_path \/ is_raised e) as He.
  { intros e ->.
    apply bind_inv in H as [(e' & H & [= <-])|(D & s1 & _ & H)].
    - rewrite Hd in H. apply fails_with_main_meshes in H. auto.
    - apply bind_inv in H as [(e' & H & [= <-])|(model & s2 & _ & H)].
      + apply fails_with_main_fit in H. auto.
      + apply fails_with_main_save in H as [->| ->]; auto. }
  split_and!.
  - split; [|done]. intros ->.
    destruct (He _ eq_refl) as [[=]|[[=]|[? [=]]]].
  - split; [|by intros (_ & _ & [=])]. intros ->.
    destruct (He _ eq_refl) as [[=]|[[=]|[? [=]]]].
  - by intros err _ [=].
  - intros e Hr. destruct (He _ Hr) as [?|[?|?]]; auto.
Qed.

Lemma training_error_causes_witness :
  (main toy "01_" (toy_state toy_fs_named)).1 = inl NoFirstMeshes <->
    path_exists toy_fs_named toy_root = true /\
    (exists cad, toy_load toy_fs_named (toy_root // "cad_NODE.csv")
                   (toy_root // "cad_ELEMENT.csv") = inr cad) /\
    find_first_meshes toy_fs_named toy_root = [].
Proof.
  apply (training_error_causes toy "01_" (toy_state toy_fs_named)
           (main toy "01_" (toy_state toy_fs_named)).2
           (main toy "01_" (toy_state toy_fs_named)).1).
  vm_compute. reflexivity.
Defined.



(** ** Evaluation, step by step *)

Section Avoiding.
Context {K : Collaborators} (bad : Call K -> bool).

Lemma avoids_pure {A} (m : M K A) :
  (forall st, exists r out, m st = (r, mkState (fs st) (calls st) out)) ->
  avoids bad m.
Proof.
  intros Hm st r st' H. destruct (Hm st) as (r' & out & E).
  rewrite E in H. injection H as <- <-. split; [done|].
  exists []. by rewrite app_nil_r.
Qed.

Lemma avoids_ret {A} (a : A) : avoids bad (ret a).
Proof. apply avoids_pure. intros st. exists (inr a), (stdout st). by destruct st. Qed.

Lemma avoids_raise {A} e : avoids bad (@raise K A e).
Proof. apply avoids_pure. intros st. exists (inl e), (stdout st). by destruct st. Qed.

Lemma avoids_get_fs : avoids bad get_fs.
Proof.
  apply avoids_pure. intros st. exists (inr (fs st)), (stdout st). by destruct st.
Qed.

Lemma avoids_print m : avoids bad (print m).
Proof. apply avoids_pure. intros st. by eexists _, _. Qed.

Lemma avoids_record c : bad c = false -> avoids bad (record c).
Proof.
  intros Hc st r st' [= <- <-]. split; [done|]. exists [c].
  split; [done|]. by constructor.
Qed.

Lemma avoids_lift {A} (r : ExternalError K + A) : avoids bad (lift r).
Proof. destruct r; [apply avoids_raise|apply avoids_ret]. Qed.

Lemma avoids_bind {A C} (m : M K A) (k : A -> M K C) :
  avoids bad m -> (forall a, avoids bad (k a)) -> avoids bad (bind m k).
Proof.
  intros Hm Hk st r st' H.
  apply bind_inv in H as [(e & H & ->)|(a & s1 & H & H')].
  - by apply Hm in H.
  - apply Hm in H as (Hfs & new & Hc & Hnew).
    apply Hk in H' as (Hfs' & new' & Hc' & Hnew').
    split; [congruence|]. exists (new ++ new')%list.
    split; [by rewrite Hc', Hc, app_assoc|by apply Forall_app].
Qed.

Lemma avoids_call {A} c (r : ExternalError K + A) :
  bad c = false -> avoids bad (call c r).
Proof.
  intros Hc. apply avoids_bind; [by apply avoids_record|].
  intros _. apply avoids_lift.
Qed.

Lemma avoids_evaluate_elements eids mesh metrics ie ce :
  (forall eid, bad (Call_build_feature_vector eid) = false) ->
  forall X y, avoids bad (evaluate_elements K eids mesh metrics ie ce X y).
Proof.
  intros Hb. induction eids as [|eid eids IH]; intros X y; simpl.
  - apply avoids_ret.
  - apply avoids_bind; [by apply avoids_call|]. intros f. apply IH.
Qed.

End Avoiding.

Section EvaluationRuns.
Context (K : Collaborators).

Lemma avoids_evaluate vehicle_id mesh_idx :
  avoids training_call (evaluate K vehicle_id mesh_idx).
Proof.
  unfold evaluate.
  apply avoids_bind; [apply avoids_get_fs|intros fs0].
  destruct (negb (path_exists fs0 _)); [apply avoids_raise|].
  apply avoids_bind; [apply avoids_print|intros _].
  apply avoids_bind; [by apply avoids_record|intros _].
  destruct (read_file fs0 _) as [bytes|]; [|apply avoids_raise].
  repeat first
    [ apply avoids_evaluate_elements; reflexivity
    | apply avoids_print
    | apply avoids_lift
    | apply avoids_call; reflexivity
    | apply avoids_bind; [|intros ?] ].
Qed.

Lemma read_file_exists {B} (disk : FS B) p c :
  read_file disk p = Some c -> path_exists disk p = true.
Proof.
  unfold read_file, path_exists. by destruct (fs_lookup disk p) as [[|?]|].
Qed.

Lemma fails_with_evaluate_elements eids mesh metrics ie ce X y :
  fails_with is_raised (evaluate_elements K eids mesh metrics ie ce X y).
Proof.
  intros st e st' H. rewrite evaluate_elements_main_elements in H.
  by apply fails_with_main_elements in H.
Qed.

(** Why [evaluate] failed, when it did. *)
Lemma evaluate_fail_inv vehicle_id mesh_idx (st st' : State K) e :
  let model_path := ["models"] // vehicle_id // "severity_model.pkl" in
  evaluate K vehicle_id mesh_idx st = (inl e, st') ->
  (e = ModelNotFound model_path /\ path_exists (fs st) model_path = false) \/
  (e = OSError model_path /\ path_exists (fs st) model_path = true /\
   read_file (fs st) model_path = None) \/
  (is_raised e /\ exists bytes, read_file (fs st) model_path = Some bytes).
Proof.
  intros model_path. unfold evaluate. fold model_path. intros H.
  apply bind_inv in H as [(? & [=] & _)|(fs0 & s1 & [= <- <-] & H)].
  destruct (path_exists (fs st) model_path) eqn:Hex; simpl in H.
  2:{ injection H as <- _. by left. }
  apply bind_inv in H as [(? & [=] & _)|([] & s2 & _ & H)].
  apply bind_inv in H as [(? & [=] & _)|([] & s3 & _ & H)].
  destruct (read_file (fs st) model_path) as [bytes|] eqn:Hread.
  2:{ injection H as <- _. right. by left. }
  right. right. split; [|by exists bytes].
  match type of H with
  | ?m s3 = _ => assert (fails_with is_raised m) as Hf; [|exact (Hf _ _ _ H)]
  end.
  repeat first
    [ apply fails_with_evaluate_elements
    | apply fails_with_print
    | apply fails_with_lift; apply is_raised_Raised
    | apply fails_with_call; apply is_raised_Raised
    | apply fails_with_bind; [|intros ?] ].
Qed.

End EvaluationRuns.

(** X12.  Evaluation is read-only: after any run of [evaluate], successful
    or not, the file system is exactly what it was, and no classifier was
    fitted, no directory created and no model written along the way. *)
Theorem evaluation_is_read_only (K : Collaborators)
    (vehicle_id mesh_idx : string) (st st' : State K) (r : Exn K + unit) :
  evaluate K vehicle_id mesh_idx st = (r, st') ->
  fs st' = fs st /\
  exists new, calls st' = (calls st ++ new)%list /\
              Forall (fun c => training_call c = false) new.
Proof. apply avoids_evaluate. Qed.

Lemma evaluation_is_read_only_witness :
  fs (evaluate toy "01_" "1" toy_trained).2 = fs toy_trained /\
  exists new,
    calls (evaluate toy "01_" "1" toy_trained).2 = (calls toy_trained ++ new)%list /\
    Forall (fun c => training_call c = false) new.
Proof.
  apply (evaluation_is_read_only toy "01_" "1" toy_trained
           (evaluate toy "01_" "1" toy_trained).2
           (evaluate toy "01_" "1" toy_trained).1).
  vm_compute. reflexivity.
Defined.

(** X13.  An evaluation run in which nothing fails, in full.  The mesh
    variant is named by the index as it is given (any text, numeric or
    not).  When the model file can be read and unpickled, the CAD mesh and
    that variant load and are analysed with one feature vector per element,
    and conversion, prediction and both metrics return, [evaluate] returns
    normally: the rule labels of the elements, in element order, are what the
    predictions are scored against; the calls are made in the order listed;
    and the output is the evaluation notice, the accuracy and the report. *)
Theorem evaluation_run (K : Collaborators) (vehicle_id mesh_idx : string)
    (st : State K) (bytes : FileContent K) (model : Model K)
    (cad : Mesh (MeshData K) (NeighborMap K))
    (eids : list (ElementID K)) (Xm : list (FeatureVector K)) (ym : list Z)
    (X : Array K) (y_pred : Predictions K) (a : Score K) (rep : Report K) :
  let vehicle_root := ["data_2"] // vehicle_id in
  let model_path := ["models"] // vehicle_id // "severity_model.pkl" in
  let mesh_pair := (vehicle_root // ("first_mesh_" ++ mesh_idx ++ "_NODE.csv"),
                    vehicle_root // ("first_mesh_" ++ mesh_idx ++ "_ELEMENT.csv")) in
  read_file (fs st) model_path = Some bytes ->
  joblib_load K bytes = inr model ->
  load_mesh K (fs st) (vehicle_root // "cad_NODE.csv")
    (vehicle_root // "cad_ELEMENT.csv") = inr cad ->
  mesh_rows K cad (fs st) mesh_pair eids Xm ym ->
  asarray_float32 K Xm = inr X ->
  predict K model X = inr y_pred ->
  accuracy_score K ym y_pred = inr a ->
  classification_report K ym y_pred = inr rep ->
  evaluate K vehicle_id mesh_idx st =
    (inr tt,
     mkState (fs st)
       (calls st
          ++ [Call_joblib_load model_path;
              Call_load_mesh (vehicle_root // "cad_NODE.csv")
                             (vehicle_root // "cad_ELEMENT.csv")]
          ++ mesh_calls mesh_pair eids
          ++ [Call_asarray; Call_predict; Call_accuracy_score;
              Call_classification_report])%list
       (stdout st
          ++ [Info_evaluating vehicle_id mesh_idx; Out_accuracy a;
              Out_report rep])%list).
Proof.
  intros vehicle_root model_path mesh_pair
    Hread Hmodel Hcad Hrows HX Hpred Hacc Hrep.
  subst mesh_pair vehicle_root model_path.
  destruct Hrows as (m0 & nb & metrics & ie & dist & ce & Hload & Hnb & Hmet
                     & Hie & Hdist & Hce & -> & HF & ->).
  pose proof (read_file_exists _ _ _ Hread) as Hex.
  simpl in *.
  unfold evaluate, bind, get_fs, print, record, call, record, lift, ret, raise.
  simpl. rewrite Hex. simpl. rewrite Hread, Hmodel. simpl. rewrite Hcad. simpl.
  rewrite Hload. simpl. rewrite Hnb. simpl. rewrite Hmet. simpl.
  rewrite Hie. simpl. rewrite Hdist. simpl. rewrite Hce. simpl.
  rewrite evaluate_elements_main_elements.
  rewrite (main_elements_ok K _ _ _ _ _ _ HF). simpl.
  rewrite HX. simpl. rewrite Hpred. simpl. rewrite Hacc. simpl.
  rewrite Hrep. simpl.
  unfold mesh_calls. simpl. by rewrite <- !app_assoc.
Qed.

Lemma evaluation_run_witness :
  find_first_meshes toy_fs_named_model toy_root = [] /\
  exists final : State toy,
    evaluate toy "01_" "a" (toy_state toy_fs_named_model) = (inr tt, final) /\
    stdout final = [Info_evaluating "01_" "a"; @Out_accuracy toy 0; @Out_report toy tt].
Proof.
  split; [vm_compute; reflexivity|].
  eexists. split.
  - apply (evaluation_run toy "01_" "a" (toy_state toy_fs_named_model)
             (Pkl (mkRF 200 20 1 42) [10] [1%Z])
             (mkRF 200 20 1 42, [10], [1%Z])
             (mkMesh [1] None)
             [1; 2] [10; 20] [1; 2]%Z [10; 20] [0; 0]%Z 0 tt).
    + reflexivity.
    + reflexivity.
    + reflexivity.
    + exists (mkMesh [1; 2] None), tt, tt, toy_intrinsic, tt, toy_cad.
      split_and!; try reflexivity. repeat constructor.
    + reflexivity.
    + reflexivity.
    + vm_compute. reflexivity.
    + reflexivity.
  - vm_compute. reflexivity.
Defined.

(** X14.  What each failure of an evaluation run means.  The run fails with
    "model not found" exactly when the model path does not exist, and with an
    operating-system error exactly when that path is a directory; every other
    failure is an error raised by a collaborator.  In particular evaluation
    never checks the data root itself: a missing vehicle folder surfaces as
    whatever the mesh loader raises. *)
Theorem evaluation_error_causes (K : Collaborators)
    (vehicle_id mesh_idx : string) (st st' : State K) (r : Exn K + unit) :
  let model_path := ["models"] // vehicle_id // "severity_model.pkl" in
  evaluate K vehicle_id mesh_idx st = (r, st') ->
  (r = inl (ModelNotFound model_path) <->
     path_exists (fs st) model_path = false) /\
  (r = inl (OSError model_path) <-> fs_lookup (fs st) model_path = Some Dir) /\
  (forall e, r = inl e ->
     e = ModelNotFound model_path \/ e = OSError model_path \/ is_raised e) /\
  (forall p, r <> inl (VehicleFolderNotFound p)) /\
  r <> inl NoFirstMeshes.
Proof.
  intros model_path H.
  assert (forall e, r = inl e ->
    (e = ModelNotFound model_path /\ path_exists (fs st) model_path = false) \/
    (e = OSError model_path /\ path_exists (fs st) model_path = true /\
     read_file (fs st) model_path = None) \/
    (is_raised e /\ exists bytes, read_file (fs st) model_path = Some bytes))
    as Hinv.
  { intros e ->. by apply evaluate_fail_inv in H. }
  split_and!.
  - split.
    + intros ->. destruct (Hinv _ eq_refl)
        as [[_ ?]|[[[=] _]|[[? [=]] _]]]. done.
    + intros Hno.
      rewrite (evaluate_not_found K vehicle_id mesh_idx st Hno) in H.
      by injection H as <- _.
  - split.
    + intros ->. destruct (Hinv _ eq_refl)
        as [[[=] _]|[(_ & Hex & Hread)|[[? [=]] _]]].
      unfold path_exists, read_file in *.
      by destruct (fs_lookup (fs st) model_path) as [[|?]|].
    + intros Hdir. revert H. unfold evaluate. fold model_path.
      unfold bind, get_fs, print, record, raise, path_exists, read_file.
      simpl. rewrite Hdir. simpl. by intros [= <- _].
  - intros e Hr. destruct (Hinv _ Hr) as [[? _]|[[? _]|[? _]]]; auto.
  - intros p ->. destruct (Hinv _ eq_refl)
      as [[[=] _]|[[[=] _]|[[? [=]] _]]].
  - intros ->. destruct (Hinv _ eq_refl)
      as [[[=] _]|[[[=] _]|[[? [=]] _]]].
Qed.

Lemma evaluation_error_causes_witness :
  (evaluate toy "02_" "1" toy_trained).1
    = inl (ModelNotFound ["models"; "02_"; "severity_model.pkl"]).
Proof.
  apply (evaluation_error_causes toy "02_" "1" toy_trained
           (evaluate toy "02_" "1" toy_trained).2
           (evaluate toy "02_" "1" toy_trained).1);
    vm_compute; reflexivity.
Defined.

(** X15.  A model saved by training is the model evaluation loads.  After a
    successful training run for a vehicle, the model file holds the bytes of
    the fitted model; any evaluation for that vehicle started from there gets
    past the "model not found" check, reads exactly those bytes, and can only
    fail with an error raised by a collaborator - with the unpickling error
    if joblib cannot read back what it wrote. *)
Theorem trained_model_is_evaluated (K : Collaborators) (vehicle_id : string)
    (st st1 : State K) :
  let model_path := ["models"] // vehicle_id // "severity_model.pkl" in
  main K vehicle_id st = (inr tt, st1) ->
  exists model,
    read_file (fs st1) model_path = Some (joblib_dump K model) /\
    path_exists (fs st1) model_path = true /\
    forall mesh_idx r st2,
      evaluate K vehicle_id mesh_idx st1 = (r, st2) ->
      (forall e, r = inl e -> is_raised e) /\
      (forall err, joblib_load K (joblib_dump K model) = inl err ->
         r = inl (Raised err)) /\
      fs st2 = fs st1.
Proof.
  intros model_path H. rewrite main_unfold in H.
  apply bind_inv in H as [(? & _ & [=])|(D & s1 & _ & H)].
  apply bind_inv in H as [(? & _ & [=])|(model & s2 & _ & H)].
  apply main_save_inv in H. fold model_path in H.
  exists model. split; [done|].
  pose proof (read_file_exists _ _ _ H) as Hex. split; [done|].
  intros mesh_idx r st2 He. split_and!.
  - intros e ->. apply evaluate_fail_inv in He
      as [[_ Hno]|[(_ & _ & Hnone)|[Hr _]]]; [| |done].
    + fold model_path in Hno. congruence.
    + fold model_path in Hnone. congruence.
  - intros err Herr. revert He. unfold evaluate. fold model_path.
    unfold bind, get_fs, print, record, raise, lift. simpl.
    rewrite Hex. simpl. rewrite H, Herr. simpl. by intros [= <- _].
  - by apply avoids_evaluate in He as [? _].
Qed.

Lemma trained_model_is_evaluated_witness :
  exists model,
    read_file (fs toy_trained) ["models"; "01_"; "severity_model.pkl"]
      = Some (joblib_dump toy model) /\
    path_exists (fs toy_trained) ["models"; "01_"; "severity_model.pkl"] = true /\
    forall mesh_idx r st2,
      evaluate toy "01_" mesh_idx toy_trained = (r, st2) ->
      (forall e, r = inl e -> is_raised e) /\
      (forall err, joblib_load toy (joblib_dump toy model) = inl err ->
         r = inl (Raised err)) /\
      fs st2 = fs toy_trained.
Proof.
  apply (trained_model_is_evaluated toy "01_" (toy_state toy_fs) toy_trained).
  vm_compute. reflexivity.
Defined.

(** ** Persistence *)

Section Persistence.
Context {B : Type}.




Lemma mkdir_each_id ps : forall (disk : FS B),
  Forall (fun q => fs_lookup disk q = Some Dir) ps ->
  mkdir_each disk ps = Some disk.
Proof.
  induction ps as [|p ps IH]; intros disk Hall; simpl; [done|].
  apply Forall_cons in Hall as [-> Hall]. by apply IH.
Qed.

Lemma overwrite_keeps_paths (disk : FS B) p c :
  (map (overwrite p c) disk).*1 = disk.*1.
Proof.
  induction disk as [|[q n] disk IH]; [done|].
  change ((overwrite p c (q, n)).1 :: (map (overwrite p c) disk).*1
          = q :: disk.*1).
  f_equal; [|exact IH].
  unfold overwrite. simpl. by case_decide.
Qed.

End Persistence.



(** X17.  Retraining replaces the model in place.  When the models
    directory, the vehicle's directory and an older model file are already
    there, a successful training run leaves a file system that differs from
    the one it started with in the content of that model file only: it now
    holds the newly fitted model, and no path was added or removed. *)
Theorem retraining_replaces_model (K : Collaborators) (vehicle_id : string)
    (st st' : State K) (old : FileContent K) :
  let out_dir := ["models"] // vehicle_id in
  let model_path := out_dir // "severity_model.pkl" in
  fs_lookup (fs st) ["models"] = Some Dir ->
  fs_lookup (fs st) out_dir = Some Dir ->
  fs_lookup (fs st) model_path = Some (File old) ->
  main K vehicle_id st = (inr tt, st') ->
  exists D X model,
    (main_dataset K vehicle_id st).1 = inr D /\
    asarray_float32 K D.1 = inr X /\
    fit K (mkRF 200 20 1 42) X D.2 = inr model /\
    fs st' = map (overwrite model_path (joblib_dump K model)) (fs st) /\
    (fs st').*1 = (fs st).*1.
Proof.
  intros out_dir model_path Hmodels Hout Hold H.
  rewrite main_unfold in H.
  apply bind_inv in H as [(? & _ & [=])|(D & s1 & Hd & H)].
  pose proof (quiet_main_dataset K _ _ _ _ Hd) as [Hfs1 _].
  apply bind_inv in H as [(? & _ & [=])|(model & s2 & Hf & H)].
  pose proof (quiet_main_fit K _ _ _ _ _ Hf) as [Hfs2 _].
  apply main_fit_inv in Hf as (X & HX & Hfit).
  assert (fs st' = map (overwrite model_path (joblib_dump K model)) (fs st))
    as Hfs.
  { revert H. unfold main_save. fold out_dir. fold model_path.
    unfold bind, record, get_fs, put_fs, print, raise. simpl.
    rewrite Hfs2, Hfs1.
    assert (mkdir_parents_exist_ok (fs st) out_dir = Some (fs st)) as ->.
    { apply mkdir_each_id. simpl. by repeat constructor. }
    simpl. unfold write_file. rewrite Hold. simpl. by intros [= <-]. }
  exists D, X, model. split_and!; try done.
  - by rewrite Hd.
  - rewrite Hfs. apply overwrite_keeps_paths.
Qed.

Lemma retraining_replaces_model_witness :
  exists D X model,
    (main_dataset toy "01_" toy_trained).1 = inr D /\
    asarray_float32 toy D.1 = inr X /\
    fit toy (mkRF 200 20 1 42) X D.2 = inr model /\
    fs (main toy "01_" toy_trained).2 =
      map (overwrite ["models"; "01_"; "severity_model.pkl"]
             (joblib_dump toy model)) (fs toy_trained) /\
    (fs (main toy "01_" toy_trained).2).*1 = (fs toy_trained).*1.
Proof.
  apply (retraining_replaces_model toy "01_" toy_trained
           (main toy "01_" toy_trained).2
           (Pkl (mkRF 200 20 1 42) [10; 20; 50; 30; 40] [1; 2; 0; 2; 0]%Z));
    vm_compute; reflexivity.
Defined.
